(** * custom-csv-parser: the reader's state machine and the writer's quoting

    A shallow embedding of [custom_csv.py] (classes [CustomCsvReader] and
    [CustomCsvWriter]) and of the compatibility subclass in
    [custom_csv_writer.py].

    Conventions.
    - A Python character is an [ascii]; text is a [string].  The result of
      [file.read(1)] and of [_read_char] is an [option ascii]: [None] is the
      empty string that Python returns at end of file.
    - [delimiter] and [quotechar] are single characters, as the reader's
      comparison [ch == self.quotechar] of a one-character string requires.
    - The reader object is a record that every method threads explicitly.
    - The [while True] loop of [__next__] is a fixpoint on a fuel argument;
      [__next__] supplies a bound computed from the unread input, and the
      development proves that the bound is never exhausted. *)

From Stdlib Require Import Ascii String List Bool Arith Lia.
Import ListNotations.
Open Scope string_scope.

Set Implicit Arguments.

(** ** Characters *)

Definition LF : ascii := "010"%char.
Definition CR : ascii := "013"%char.
Definition COMMA : ascii := ","%char.
Definition DQUOTE : ascii := "034"%char.

(** Python's [next_ch == self.quotechar] between a possibly empty read and a
    character. *)
Definition is_char (o : option ascii) (c : ascii) : bool :=
  match o with
  | Some x => Ascii.eqb x c
  | None => false
  end.

(** ** The input stream *)

Module TextIO.

(** An open text file: the characters not read yet, and how many times
    [read(1)] was called on it. *)
Record t : Type := mk {
  pending : string;
  read_calls : nat
}.

Definition open (text : string) : t := mk text 0.

(** [file.read(1)]: one character, or [None] at end of file. *)
Definition read1 (f : t) : option ascii * t :=
  match pending f with
  | EmptyString => (None, mk EmptyString (S (read_calls f)))
  | String c rest => (Some c, mk rest (S (read_calls f)))
  end.

End TextIO.

(** ** CustomCsvReader *)

Record CustomCsvReader : Type := mkReader {
  file : TextIO.t;
  delimiter : ascii;
  quotechar : ascii;
  _buffer : option ascii;
  _eof : bool
}.

(** [CustomCsvReader(file_obj, delimiter, quotechar)]. *)
Definition new_reader (file_obj : TextIO.t) (delim quote : ascii)
  : CustomCsvReader :=
  mkReader file_obj delim quote None false.

Definition set_file (self : CustomCsvReader) (f : TextIO.t) :=
  mkReader f (delimiter self) (quotechar self) (_buffer self) (_eof self).

Definition set_buffer (self : CustomCsvReader) (b : option ascii) :=
  mkReader (file self) (delimiter self) (quotechar self) b (_eof self).

Definition set_eof (self : CustomCsvReader) (e : bool) :=
  mkReader (file self) (delimiter self) (quotechar self) (_buffer self) e.

(** [_read_char]: the pushed-back character if there is one, else one
    character of the file. *)
Definition _read_char (self : CustomCsvReader)
  : option ascii * CustomCsvReader :=
  match _buffer self with
  | Some ch => (Some ch, set_buffer self None)
  | None =>
      let (ch, f) := TextIO.read1 (file self) in (ch, set_file self f)
  end.

(** [_unread_char]: overwrite the push-back slot.  Pushing back the empty
    string leaves the slot empty. *)
Definition _unread_char (self : CustomCsvReader) (ch : option ascii)
  : CustomCsvReader :=
  set_buffer self ch.

(** What a call of [__next__] gives its caller. *)
Inductive next_result : Type :=
| Row (fields : list string)
| StopIteration.

(** The join of [field_chars] on the empty separator. *)
Definition join_chars (field_chars : list ascii) : string :=
  string_of_list_ascii field_chars.

(** Truth value of a Python list. *)
Definition truthy {A : Type} (l : list A) : bool :=
  match l with
  | [] => false
  | _ :: _ => true
  end.

(** One pass through the body of [while True] in [__next__]: either the
    loop goes round again with new local variables, or the call ends. *)
Inductive iteration : Type :=
| Continue (self : CustomCsvReader) (row : list string)
           (field_chars : list ascii) (in_quotes : bool)
| Return (result : next_result) (self : CustomCsvReader).

Definition loop_body (self : CustomCsvReader)
    (row : list string) (field_chars : list ascii) (in_quotes : bool)
  : iteration :=
  let (ch, self) := _read_char self in
  match ch with
  | None =>
      (* End of file *)
      let self := set_eof self true in
      if truthy field_chars || truthy row
      then Return (Row (row ++ [join_chars field_chars])) self
      else Return StopIteration self
  | Some c =>
      if Ascii.eqb c (quotechar self) then
        if in_quotes then
          let (next_ch, self) := _read_char self in
          if is_char next_ch (quotechar self)
          then Continue self row (field_chars ++ [quotechar self]) in_quotes
          else Continue (_unread_char self next_ch) row field_chars false
        else Continue self row field_chars true
      else if Ascii.eqb c (delimiter self) && negb in_quotes then
        Continue self (row ++ [join_chars field_chars]) [] in_quotes
      else if (Ascii.eqb c LF || Ascii.eqb c CR) && negb in_quotes then
        let self :=
          if Ascii.eqb c CR then
            let (next_ch, self) := _read_char self in
            if negb (is_char next_ch LF
                     || match next_ch with None => true | Some _ => false end)
            then _unread_char self next_ch
            else self
          else self in
        Return (Row (row ++ [join_chars field_chars])) self
      else Continue self row (field_chars ++ [c]) in_quotes
  end.

(** The loop itself, run for at most [fuel] passes.  [None] means that the
    fuel ran out before the call ended. *)
Fixpoint next_loop (fuel : nat) (self : CustomCsvReader)
    (row : list string) (field_chars : list ascii) (in_quotes : bool)
  : option (next_result * CustomCsvReader) :=
  match fuel with
  | O => None
  | S fuel' =>
    match loop_body self row field_chars in_quotes with
    | Continue self' row' field_chars' in_quotes' =>
        next_loop fuel' self' row' field_chars' in_quotes'
    | Return result self' => Some (result, self')
    end
  end.

(** The characters the reader has still to deliver: the push-back slot, then
    the file. *)
Definition unread (self : CustomCsvReader) : string :=
  match _buffer self with
  | Some c => String c (TextIO.pending (file self))
  | None => TextIO.pending (file self)
  end.

(** Every iteration of the loop takes at least one character off [unread],
    or returns. *)
Definition loop_bound (self : CustomCsvReader) : nat :=
  S (String.length (unread self)).

(** [__next__] *)
Definition __next__ (self : CustomCsvReader)
  : option (next_result * CustomCsvReader) :=
  if _eof self then Some (StopIteration, self)
  else next_loop (loop_bound self) self [] [] false.

(** [list(reader)]: call [__next__] until it raises [StopIteration]. *)
Fixpoint drain (fuel : nat) (self : CustomCsvReader)
  : option (list (list string) * CustomCsvReader) :=
  match fuel with
  | O => None
  | S fuel' =>
    match __next__ self with
    | None => None
    | Some (StopIteration, self') => Some ([], self')
    | Some (Row r, self') =>
        match drain fuel' self' with
        | Some (rs, self'') => Some (r :: rs, self'')
        | None => None
        end
    end
  end.

(** Each row returned before the end of the file consumed a character, and
    the row returned at the end of the file is followed by one more call. *)
Definition list_reader (self : CustomCsvReader)
  : option (list (list string) * CustomCsvReader) :=
  drain (S (S (String.length (unread self)))) self.

(** [list(CustomCsvReader(io.StringIO(text), delimiter, quotechar))] *)
Definition read_csv (delim quote : ascii) (text : string)
  : option (list (list string)) :=
  option_map fst (list_reader (new_reader (TextIO.open text) delim quote)).

Definition nl : string := String LF EmptyString.
Definition cr : string := String CR EmptyString.
Definition crnl : string := String CR (String LF EmptyString).
Definition dq : string := String DQUOTE EmptyString.

(** ** The output sink *)

Module Sink.

(** A writable text file: the arguments of the [write] calls made on it,
    oldest first. *)
Definition t : Type := list string.

Definition empty : t := [].

Definition write (out : t) (s : string) : t := (out ++ [s])%list.

(** The text of the file. *)
Definition getvalue (out : t) : string := String.concat EmptyString out.

End Sink.

(** ** CustomCsvWriter *)

(** The values a row may hold. *)
Inductive value : Type :=
| PyNone
| PyStr (s : string).

(** Python's [c in text] for a one-character [c]. *)
Fixpoint contains (c : ascii) (text : string) : bool :=
  match text with
  | EmptyString => false
  | String x rest => Ascii.eqb x c || contains c rest
  end.

(** Python's [text.replace(old, new)] for a one-character [old]. *)
Fixpoint replace (old : ascii) (new : string) (text : string) : string :=
  match text with
  | EmptyString => EmptyString
  | String x rest =>
      if Ascii.eqb x old then new ++ replace old new rest
      else String x (replace old new rest)
  end.

Module Writer.

(** The attributes of a writer other than its file, which the methods
    thread as a [Sink.t]. *)
Record CustomCsvWriter : Type := mk {
  delimiter : ascii;
  quotechar : ascii;
  line_terminator : string
}.

(** [CustomCsvWriter(file_obj)] with the defaults. *)
Definition default : CustomCsvWriter := mk COMMA DQUOTE nl.

(** The text of a value: empty for [None], else [str(value)]. *)
Definition text_of (v : value) : string :=
  match v with
  | PyNone => EmptyString
  | PyStr s => s
  end.

Definition must_quote (self : CustomCsvWriter) (text : string) : bool :=
  contains (delimiter self) text
  || contains (quotechar self) text
  || contains LF text
  || contains CR text.

Definition _quote_field (self : CustomCsvWriter) (v : value) : string :=
  let text := text_of v in
  if must_quote self text then
    let escaped :=
      replace (quotechar self)
              (String (quotechar self) (String (quotechar self) EmptyString))
              text in
    String (quotechar self) (escaped ++ String (quotechar self) EmptyString)
  else text.

(** The line that [writerow] builds. *)
Definition line_of (self : CustomCsvWriter) (row : list value) : string :=
  let parts := map (_quote_field self) row in
  String.concat (String (delimiter self) EmptyString) parts
  ++ line_terminator self.

Definition writerow (self : CustomCsvWriter) (row : list value)
    (out : Sink.t) : Sink.t :=
  Sink.write out (line_of self row).

Definition writerows (self : CustomCsvWriter) (rows : list (list value))
    (out : Sink.t) : Sink.t :=
  fold_left (fun out row => writerow self row out) rows out.

Definition write_row (self : CustomCsvWriter) (row : list value)
    (out : Sink.t) : Sink.t :=
  writerow self row out.

Definition write_rows (self : CustomCsvWriter) (rows : list (list value))
    (out : Sink.t) : Sink.t :=
  writerows self rows out.

End Writer.

(** The text that a fresh file holds after [writerows(rows)]. *)
Definition written (w : Writer.CustomCsvWriter) (rows : list (list value))
  : string :=
  Sink.getvalue (Writer.writerows w rows Sink.empty).

(** Read a text back with the characters of the writer's dialect. *)
Definition read_back (w : Writer.CustomCsvWriter) (text : string)
  : option (list (list string)) :=
  read_csv (Writer.delimiter w) (Writer.quotechar w) text.

(** ** How a method call of the writer classes ends

    The subclass of [custom_csv_writer.py] catches [AttributeError] and
    calls methods on [self], so the calls of the writer classes are modelled
    with late binding (module [Inherit] below): an object is its class
    applied to itself a number of times.  A call ends normally, raises
    [AttributeError], or, when it needs one more level than the object has,
    ends as [Unwound]. *)

Module Dispatch.

Inductive completion : Type :=
| Normal
| AttributeError
| Unwound.

End Dispatch.

(** ** The reader as a function of the unread text

    [scan] follows [loop_body] on the text that is still to be read, without
    the reader object: it gives the result of the call, the text left unread
    and whether the end of the file was met. *)

Fixpoint scan (d q : ascii) (s : string)
    (row : list string) (field_chars : list ascii) (in_quotes : bool)
  : next_result * string * bool :=
  match s with
  | EmptyString =>
      (if truthy field_chars || truthy row
       then Row (row ++ [join_chars field_chars]) else StopIteration,
       EmptyString, true)
  | String c s' =>
      if Ascii.eqb c q then
        if in_quotes then
          match s' with
          | String c2 s'' =>
              if Ascii.eqb c2 q
              then scan d q s'' row (field_chars ++ [q]) in_quotes
              else scan d q s' row field_chars false
          | EmptyString => scan d q s' row field_chars false
          end
        else scan d q s' row field_chars true
      else if Ascii.eqb c d && negb in_quotes then
        scan d q s' (row ++ [join_chars field_chars]) [] in_quotes
      else if (Ascii.eqb c LF || Ascii.eqb c CR) && negb in_quotes then
        (Row (row ++ [join_chars field_chars]),
         if Ascii.eqb c CR then
           match s' with
           | String c2 s'' => if Ascii.eqb c2 LF then s'' else s'
           | EmptyString => s'
           end
         else s',
         false)
      else scan d q s' row (field_chars ++ [c]) in_quotes
  end.

(** The reader [self] has dialect [d], [q], end-of-file flag [e] and text
    [s] still to deliver. *)
Definition at_text (self : CustomCsvReader) (d q : ascii) (e : bool)
    (s : string) : Prop :=
  unread self = s /\ delimiter self = d /\ quotechar self = q
  /\ _eof self = e.

(** [drain] on the unread text: [e] is the reader's end-of-file flag. *)
Fixpoint parse (fuel : nat) (d q : ascii) (s : string) (e : bool)
  : option (list (list string)) :=
  match fuel with
  | O => None
  | S fuel' =>
    if e then Some []
    else
      match scan d q s [] [] false with
      | (StopIteration, _, _) => Some []
      | (Row r, rest, e') => option_map (cons r) (parse fuel' d q rest e')
      end
  end.

(** A raw row: no line break outside quotes, and no quoted section left
    open at its end.  [in_quotes] is the state at its first character. *)
Fixpoint line_closed (q : ascii) (in_quotes : bool) (s : string) : bool :=
  match s with
  | EmptyString => negb in_quotes
  | String c s' =>
      if Ascii.eqb c q then line_closed q (negb in_quotes) s'
      else if (Ascii.eqb c LF || Ascii.eqb c CR) && negb in_quotes then false
      else line_closed q in_quotes s'
  end.

(** The text left after a line break that starts with [c]. *)
Definition after_break (c : ascii) (rest : string) : string :=
  if Ascii.eqb c CR then
    match rest with
    | String c2 rest' => if Ascii.eqb c2 LF then rest' else rest
    | EmptyString => rest
    end
  else rest.

(** The text does not start with the character [q]. *)
Definition not_ahead (q : ascii) (s : string) : Prop :=
  match s with
  | EmptyString => True
  | String c _ => Ascii.eqb c q = false
  end.

(** ** The writer classes on any file object

    A class is a function from the object that its methods see as [self]
    to a table of methods.  The object that was passed as [file_obj] may
    lack a [write] method, and an attribute of an object may be absent: a
    call of an absent attribute raises [AttributeError], as does
    [self.file.write] on an object without [write].  The subclass is a
    function of its parent class. *)

Module Inherit.

(** The object passed as [file_obj]: an open text file, or an object
    without a [write] attribute (a path string, [None]). *)
Inductive file_obj : Type :=
| TextFile (out : Sink.t)
| NoWrite.

Definition action : Type := file_obj -> Dispatch.completion * file_obj.

(** [self.file.write(line)] *)
Definition file_write (line : string) : action :=
  fun f =>
    match f with
    | TextFile out => (Dispatch.Normal, TextFile (Sink.write out line))
    | NoWrite => (Dispatch.AttributeError, NoWrite)
    end.

(** The four method names of an object; [None] is a name that neither the
    class nor its parents define. *)
Record attrs : Type := mk {
  writerow : option (list value -> action);
  writerows : option (list (list value) -> action);
  write_row : option (list value -> action);
  write_rows : option (list (list value) -> action)
}.

Definition hasattr {A : Type} (attr : option A) : bool :=
  match attr with
  | Some _ => true
  | None => false
  end.

(** [obj.name(x)] *)
Definition call {A : Type} (attr : option (A -> action)) (x : A) : action :=
  match attr with
  | Some method => method x
  | None => fun f => (Dispatch.AttributeError, f)
  end.

(** [for x in l: body(x)] *)
Fixpoint for_each {A : Type} (body : A -> action) (l : list A) : action :=
  fun f =>
    match l with
    | [] => (Dispatch.Normal, f)
    | x :: l' =>
        match body x f with
        | (Dispatch.Normal, f') => for_each body l' f'
        | stopped => stopped
        end
    end.

(** [CustomCsvWriter] of [custom_csv.py]. *)
Definition _Original (w : Writer.CustomCsvWriter) (self : attrs) : attrs :=
  {| writerow := Some (fun row => file_write (Writer.line_of w row));
     writerows := Some (fun rows => for_each (call (writerow self)) rows);
     write_row := Some (fun row => call (writerow self) row);
     write_rows := Some (fun rows => call (writerows self) rows) |}.

(** [CustomCsvWriter] of [custom_csv_writer.py], over its parent class. *)
Definition CustomCsvWriter (parent : attrs -> attrs) (self : attrs) : attrs :=
  let super := parent self in
  {| writerow := Some (fun row f =>
       match call (writerow super) row f with
       | (Dispatch.AttributeError, f') =>
           if hasattr (write_row self) then call (write_row self) row f'
           else if hasattr (write_rows self)
                then call (write_rows self) [row] f'
                else (Dispatch.AttributeError, f')
       | finished => finished
       end);
     writerows := Some (fun rows f =>
       match call (writerows super) rows f with
       | (Dispatch.AttributeError, f') =>
           if hasattr (write_rows self) then call (write_rows self) rows f'
           else if hasattr (write_row self)
                then for_each (call (write_row self)) rows f'
                else (Dispatch.AttributeError, f')
       | finished => finished
       end);
     write_row := write_row super;
     write_rows := write_rows super |}.

Definition unwound : attrs :=
  {| writerow := Some (fun _ f => (Dispatch.Unwound, f));
     writerows := Some (fun _ f => (Dispatch.Unwound, f));
     write_row := Some (fun _ f => (Dispatch.Unwound, f));
     write_rows := Some (fun _ f => (Dispatch.Unwound, f)) |}.

(** An object of class [cls] whose methods can call methods of [self]
    through [depth] levels; a chain of calls that no depth ends is a
    recursion without end. *)
Fixpoint instance (cls : attrs -> attrs) (depth : nat) : attrs :=
  match depth with
  | O => unwound
  | S depth' => cls (instance cls depth')
  end.

End Inherit.

(** * Properties *)

(** ** Pulling and pushing back one character *)

Lemma read_char_eof self d q e :
  at_text self d q e EmptyString ->
  exists self',
    _read_char self = (None, self')
    /\ at_text self' d q e EmptyString /\ _buffer self' = None.
Proof.
  destruct self as [[p n] d0 q0 [b|] e0]; unfold at_text, unread; cbn;
    intros (Hs & Hd & Hq & He); try discriminate; subst.
  unfold _read_char, TextIO.read1; cbn.
  eexists; split; [reflexivity|]. cbn. auto.
Qed.

Lemma read_char_some self d q e c s :
  at_text self d q e (String c s) ->
  exists self',
    _read_char self = (Some c, self')
    /\ at_text self' d q e s /\ _buffer self' = None.
Proof.
  destruct self as [[p n] d0 q0 [b|] e0]; unfold at_text, unread; cbn;
    intros (Hs & Hd & Hq & He); subst.
  - injection Hs as -> ->. unfold _read_char; cbn.
    eexists; split; [reflexivity|]. cbn. auto.
  - unfold _read_char, TextIO.read1; cbn.
    eexists; split; [reflexivity|]. cbn. auto.
Qed.

Lemma unread_char_at self d q e s o :
  at_text self d q e s -> _buffer self = None ->
  at_text (_unread_char self o) d q e
    (match o with Some c => String c s | None => s end).
Proof.
  destruct self as [[p n] d0 q0 b e0]; unfold at_text, unread; cbn.
  intros (Hs & Hd & Hq & He) ->; subst. destruct o; cbn; auto.
Qed.

Lemma set_eof_at self d q e s :
  at_text self d q e s -> at_text (set_eof self true) d q true s.
Proof. unfold at_text, unread; cbn. intuition. Qed.

(** ** The loop follows [scan] *)

Lemma next_loop_scan d q e :
  forall fuel self row fc inq s,
    at_text self d q e s ->
    String.length s < fuel ->
    exists self',
      next_loop fuel self row fc inq
      = Some (fst (fst (scan d q s row fc inq)), self')
      /\ at_text self' d q (snd (scan d q s row fc inq) || e)
                 (snd (fst (scan d q s row fc inq))).
Proof.
  induction fuel as [|fuel IH]; intros self row fc inq s Hat Hlen; [lia|].
  cbn [next_loop]. unfold loop_body.
  destruct s as [|c s'].
  - destruct (read_char_eof Hat) as (self1 & -> & Hat1 & _).
    cbn [scan fst snd orb].
    destruct (truthy fc || truthy row); eexists; split; try reflexivity;
      eauto using set_eof_at.
  - destruct (read_char_some Hat) as (self1 & -> & Hat1 & Hb1).
    assert (Hq1 : quotechar self1 = q) by apply Hat1.
    assert (Hd1 : delimiter self1 = d) by apply Hat1.
    cbn [String.length] in Hlen. cbn [scan]. rewrite Hq1, Hd1.
    destruct (Ascii.eqb c q).
    { destruct inq.
      - destruct s' as [|c2 s''].
        + destruct (read_char_eof Hat1) as (self2 & -> & Hat2 & Hb2).
          cbn [is_char].
          apply IH; [|cbn; lia].
          apply (unread_char_at None Hat2 Hb2).
        + destruct (read_char_some Hat1) as (self2 & -> & Hat2 & Hb2).
          assert (Hq2 : quotechar self2 = q) by apply Hat2.
          cbn [is_char]. rewrite Hq2.
          cbn [String.length] in Hlen.
          destruct (Ascii.eqb c2 q).
          * apply IH; [assumption | lia].
          * apply IH; [|cbn; lia].
            apply (unread_char_at (Some c2) Hat2 Hb2).
      - apply IH; [assumption | lia]. }
    destruct (Ascii.eqb c d && negb inq).
    { apply IH; [assumption | lia]. }
    destruct ((Ascii.eqb c LF || Ascii.eqb c CR) && negb inq).
    { cbn [fst snd orb].
      destruct (Ascii.eqb c CR).
      - destruct s' as [|c2 s''].
        + destruct (read_char_eof Hat1) as (self2 & -> & Hat2 & Hb2).
          cbn. eexists; split; [reflexivity | assumption].
        + destruct (read_char_some Hat1) as (self2 & -> & Hat2 & Hb2).
          cbn [is_char]. destruct (Ascii.eqb c2 LF); cbn [orb negb].
          * eexists; split; [reflexivity | assumption].
          * eexists; split; [reflexivity |].
            apply (unread_char_at (Some c2) Hat2 Hb2).
      - eexists; split; [reflexivity | assumption]. }
    apply IH; [assumption | lia].
Qed.

(** ** [__next__] and [list(reader)] on the unread text *)

Lemma next_scan self d q s :
  at_text self d q false s ->
  exists self',
    __next__ self = Some (fst (fst (scan d q s [] [] false)), self')
    /\ at_text self' d q (snd (scan d q s [] [] false))
               (snd (fst (scan d q s [] [] false))).
Proof.
  intros Hat. unfold __next__.
  assert (He : _eof self = false) by apply Hat. rewrite He.
  destruct (@next_loop_scan d q false (loop_bound self) self [] [] false s Hat)
    as (self' & Hn & Hat').
  - unfold loop_bound. destruct Hat as (-> & _). lia.
  - rewrite orb_false_r in Hat'. eauto.
Qed.

Lemma next_at_eof self :
  _eof self = true -> __next__ self = Some (StopIteration, self).
Proof. intros H. unfold __next__. now rewrite H. Qed.

Lemma at_text_refl self :
  at_text self (delimiter self) (quotechar self) (_eof self) (unread self).
Proof. unfold at_text; auto. Qed.

Lemma drain_parse d q :
  forall fuel self e s,
    at_text self d q e s ->
    option_map fst (drain fuel self) = parse fuel d q s e.
Proof.
  induction fuel as [|fuel IH]; intros self e s Hat; [reflexivity|].
  cbn [drain parse]. destruct e.
  - rewrite next_at_eof by apply Hat. reflexivity.
  - destruct (next_scan Hat) as (self' & -> & Hat').
    destruct (scan d q s [] [] false) as [[res rest] e']. cbn [fst snd] in *.
    destruct res as [r|]; [|reflexivity].
    rewrite <- (IH self' e' rest Hat').
    destruct (drain fuel self') as [[rs self'']|]; reflexivity.
Qed.

Lemma read_csv_parse d q text :
  read_csv d q text = parse (S (S (String.length text))) d q text false.
Proof.
  unfold read_csv, list_reader.
  erewrite drain_parse; [reflexivity|].
  unfold at_text, new_reader, unread; cbn. auto.
Qed.

(** ** [scan] consumes text, so the fuel suffices *)

Lemma scan_rest d q :
  forall n s row fc inq,
    String.length s <= n ->
    (snd (scan d q s row fc inq) = true
     /\ snd (fst (scan d q s row fc inq)) = EmptyString)
    \/ (snd (scan d q s row fc inq) = false
        /\ String.length (snd (fst (scan d q s row fc inq)))
           < String.length s).
Proof.
  induction n as [|n IH]; intros s row fc inq Hlen.
  - destruct s; [|cbn in Hlen; lia]. left. cbn. auto.
  - destruct s as [|c s']; [left; cbn; auto|].
    cbn [String.length] in Hlen. cbn [scan].
    assert (Hstep : forall row fc inq,
      (snd (scan d q s' row fc inq) = true
       /\ snd (fst (scan d q s' row fc inq)) = EmptyString)
      \/ (snd (scan d q s' row fc inq) = false
          /\ String.length (snd (fst (scan d q s' row fc inq)))
             < String.length (String c s'))).
    { intros. destruct (IH s' row0 fc0 inq0) as [H|[H1 H2]]; [lia|auto|].
      right. cbn [String.length]. split; [assumption|lia]. }
    destruct (Ascii.eqb c q).
    { destruct inq; [|apply Hstep].
      destruct s' as [|c2 s'']; [apply Hstep|].
      destruct (Ascii.eqb c2 q); [|apply Hstep].
      cbn [String.length] in Hlen.
      destruct (IH s'' row (fc ++ [q])%list true) as [H|[H1 H2]];
        [lia|auto|].
      right. cbn [String.length]. split; [assumption|lia]. }
    destruct (Ascii.eqb c d && negb inq); [apply Hstep|].
    destruct ((Ascii.eqb c LF || Ascii.eqb c CR) && negb inq);
      [|apply Hstep].
    right. cbn [fst snd]. split; [reflexivity|].
    cbn [String.length].
    destruct (Ascii.eqb c CR); [|lia].
    destruct s' as [|c2 s'']; [cbn; lia|].
    destruct (Ascii.eqb c2 LF); cbn [String.length]; lia.
Qed.

Lemma parse_total d q :
  forall fuel s e,
    String.length s + 2 <= fuel -> parse fuel d q s e <> None.
Proof.
  induction fuel as [|fuel IH]; intros s e Hlen; [lia|].
  cbn [parse]. destruct e; [discriminate|].
  pose proof (@scan_rest d q (String.length s) s [] [] false (le_n _)) as Hr.
  destruct (scan d q s [] [] false) as [[res rest] e']. cbn [fst snd] in Hr.
  destruct res as [r|]; [|discriminate].
  assert (Hp : parse fuel d q rest e' <> None).
  { destruct Hr as [[-> ->]|[-> Hlt]].
    - destruct fuel; [lia|]. cbn. discriminate.
    - apply IH. lia. }
  destruct (parse fuel d q rest e'); [discriminate|congruence].
Qed.

Lemma parse_more_fuel d q :
  forall fuel fuel' s e rows,
    parse fuel d q s e = Some rows -> fuel <= fuel' ->
    parse fuel' d q s e = Some rows.
Proof.
  induction fuel as [|fuel IH]; intros fuel' s e rows Hp Hle;
    [discriminate|].
  destruct fuel' as [|fuel']; [lia|].
  cbn [parse] in *. destruct e; [assumption|].
  destruct (scan d q s [] [] false) as [[res rest] e'].
  destruct res as [r|]; [|assumption].
  destruct (parse fuel d q rest e') as [rs|] eqn:E; [|discriminate].
  rewrite (IH fuel' rest e' rs E) by lia. assumption.
Qed.

(** A read always ends. *)
Lemma read_csv_total d q text : read_csv d q text <> None.
Proof. rewrite read_csv_parse. apply parse_total. lia. Qed.

(** ** Strings *)

Lemma append_nil_r (s : string) : s ++ EmptyString = s.
Proof. induction s; cbn; congruence. Qed.

Lemma append_assoc (a b c : string) : (a ++ b) ++ c = a ++ (b ++ c).
Proof. induction a; cbn; congruence. Qed.

Lemma join_chars_of_string (s : string) :
  join_chars (list_ascii_of_string s) = s.
Proof. apply string_of_list_ascii_of_string. Qed.

Lemma contains_cons_false c x s :
  contains c (String x s) = false ->
  Ascii.eqb x c = false /\ contains c s = false.
Proof. cbn. apply orb_false_elim. Qed.

Lemma contains_In c s :
  contains c s = true <-> In c (list_ascii_of_string s).
Proof.
  induction s as [|x s IH]; cbn.
  - split; [discriminate | tauto].
  - rewrite orb_true_iff, IH, Ascii.eqb_eq. tauto.
Qed.

Lemma concat_empty_cons (x : string) (xs : list string) :
  String.concat EmptyString (x :: xs) = x ++ String.concat EmptyString xs.
Proof. destruct xs; cbn; [now rewrite append_nil_r | reflexivity]. Qed.

(** ** What the writer appends *)

Lemma writerows_app w rows out :
  Writer.writerows w rows out = (out ++ map (Writer.line_of w) rows)%list.
Proof.
  unfold Writer.writerows. revert out.
  induction rows as [|r rows IH]; intros out; cbn [fold_left map].
  - now rewrite app_nil_r.
  - rewrite IH. unfold Writer.writerow, Sink.write.
    now rewrite <- app_assoc.
Qed.

Lemma written_nil w : written w [] = EmptyString.
Proof. reflexivity. Qed.

Lemma written_cons w r rows :
  written w (r :: rows) = Writer.line_of w r ++ written w rows.
Proof.
  unfold written, Sink.getvalue, Sink.empty.
  rewrite !writerows_app. cbn [app map]. apply concat_empty_cons.
Qed.

(** ** Reading one written field *)

Section Fields.

Variables d q : ascii.

Lemma scan_plain :
  forall text tail row fc,
    contains d text = false -> contains q text = false ->
    contains LF text = false -> contains CR text = false ->
    scan d q (text ++ tail) row fc false
    = scan d q tail row (fc ++ list_ascii_of_string text) false.
Proof.
  induction text as [|c text IH]; intros tail row fc Hd Hq Hlf Hcr.
  - cbn. now rewrite app_nil_r.
  - apply contains_cons_false in Hd, Hq, Hlf, Hcr.
    destruct Hd as [Hd Hd'], Hq as [Hq Hq'], Hlf as [Hlf Hlf'],
      Hcr as [Hcr Hcr'].
    cbn [append scan list_ascii_of_string].
    rewrite Hq, Hd, Hlf, Hcr. cbn [andb orb].
    rewrite IH by assumption. now rewrite <- app_assoc.
Qed.

Lemma scan_quoted :
  forall text tail row fc,
    not_ahead q tail ->
    scan d q (replace q (String q (String q EmptyString)) text
              ++ String q tail) row fc true
    = scan d q tail row (fc ++ list_ascii_of_string text) false.
Proof.
  induction text as [|c text IH]; intros tail row fc Htail.
  - cbn [replace append scan list_ascii_of_string].
    rewrite Ascii.eqb_refl, app_nil_r.
    destruct tail as [|c2 tail']; [reflexivity|].
    cbn in Htail. now rewrite Htail.
  - cbn [replace list_ascii_of_string].
    destruct (Ascii.eqb c q) eqn:E.
    + apply Ascii.eqb_eq in E. subst c.
      cbn [append scan]. rewrite !Ascii.eqb_refl.
      rewrite IH by assumption. now rewrite <- app_assoc.
    + cbn [append scan]. rewrite E. cbn [andb negb].
      rewrite !andb_false_r.
      rewrite IH by assumption. now rewrite <- app_assoc.
Qed.

Variable lt : string.
Local Abbreviation w := (Writer.mk d q lt).

Lemma scan_field v tail row fc :
  not_ahead q tail ->
  scan d q (Writer._quote_field w v ++ tail) row fc false
  = scan d q tail row (fc ++ list_ascii_of_string (Writer.text_of v)) false.
Proof.
  intros Htail. unfold Writer._quote_field.
  destruct (Writer.must_quote w (Writer.text_of v)) eqn:E.
  - cbn [Writer.quotechar append]. rewrite append_assoc.
    cbn [append scan]. rewrite Ascii.eqb_refl.
    now apply scan_quoted.
  - unfold Writer.must_quote in E. cbn [Writer.delimiter Writer.quotechar] in E.
    apply orb_false_elim in E as [E Hcr].
    apply orb_false_elim in E as [E Hlf].
    apply orb_false_elim in E as [Hd Hq].
    now apply scan_plain.
Qed.

End Fields.

(** ** Reading back what the writer wrote *)

Lemma not_ahead_app c a b :
  not_ahead c a -> not_ahead c b -> not_ahead c (a ++ b).
Proof. destruct a; cbn; auto. Qed.

Lemma not_ahead_contains c s : contains c s = false -> not_ahead c s.
Proof.
  destruct s as [|x s]; cbn; [auto|].
  intros H. now apply orb_false_elim in H.
Qed.

Lemma eqb_neq_false (a b : ascii) : a <> b -> Ascii.eqb a b = false.
Proof. apply Ascii.eqb_neq. Qed.

Section RoundTrip.

Variables d q : ascii.
Hypothesis d_not_q : d <> q.
Hypothesis d_not_LF : d <> LF.
Hypothesis d_not_CR : d <> CR.
Hypothesis q_not_LF : q <> LF.
Hypothesis q_not_CR : q <> CR.

Lemma scan_break c tail row fc :
  c = LF \/ c = CR ->
  scan d q (String c tail) row fc false
  = (Row (row ++ [join_chars fc]), after_break c tail, false).
Proof.
  intros Hc. cbn [scan]. unfold after_break.
  assert (Hq : Ascii.eqb c q = false)
    by (apply Ascii.eqb_neq; destruct Hc; subst; congruence).
  assert (Hd : Ascii.eqb c d = false)
    by (apply Ascii.eqb_neq; destruct Hc; subst; congruence).
  rewrite Hq, Hd. cbn [andb].
  destruct Hc; subst c; reflexivity.
Qed.

Lemma scan_delimiter tail row fc :
  scan d q (String d tail) row fc false
  = scan d q tail (row ++ [join_chars fc]) [] false.
Proof.
  cbn [scan]. rewrite (eqb_neq_false d_not_q), Ascii.eqb_refl. reflexivity.
Qed.

Variable lt : string.
Local Abbreviation w := (Writer.mk d q lt).
Local Abbreviation sep := (String d EmptyString).

Lemma scan_fields :
  forall vs v row c tail,
    c = LF \/ c = CR ->
    scan d q (String.concat sep (map (Writer._quote_field w) (v :: vs))
              ++ String c tail) row [] false
    = (Row (row ++ map Writer.text_of (v :: vs)), after_break c tail, false).
Proof.
  induction vs as [|v2 vs IH]; intros v row c tail Hc.
  - cbn [map String.concat]. rewrite scan_field.
    + rewrite scan_break by assumption. cbn [app].
      now rewrite join_chars_of_string.
    + cbn. apply Ascii.eqb_neq. destruct Hc; subst; congruence.
  - change (String.concat sep (map (Writer._quote_field w) (v :: v2 :: vs)))
      with (Writer._quote_field w v
            ++ sep
            ++ String.concat sep (map (Writer._quote_field w) (v2 :: vs))).
    rewrite append_assoc. cbn [append].
    rewrite scan_field.
    + rewrite scan_delimiter. cbn [app]. rewrite join_chars_of_string.
      rewrite IH by assumption.
      cbn [map]. now rewrite <- app_assoc.
    + cbn. now apply eqb_neq_false.
Qed.

Lemma quote_field_not_LF v : not_ahead LF (Writer._quote_field w v).
Proof.
  unfold Writer._quote_field.
  destruct (Writer.must_quote w (Writer.text_of v)) eqn:E.
  - cbn. now apply eqb_neq_false.
  - apply not_ahead_contains. unfold Writer.must_quote in E.
    apply orb_false_elim in E as [E _].
    now apply orb_false_elim in E as [_ E].
Qed.

Lemma line_not_LF v vs rest :
  not_ahead LF rest ->
  not_ahead LF
    (String.concat sep (map (Writer._quote_field w) (v :: vs)) ++ rest).
Proof.
  intros Hrest. destruct vs as [|v2 vs].
  - cbn [map String.concat].
    apply not_ahead_app; [apply quote_field_not_LF | assumption].
  - change (String.concat sep (map (Writer._quote_field w) (v :: v2 :: vs)))
      with (Writer._quote_field w v
            ++ sep
            ++ String.concat sep (map (Writer._quote_field w) (v2 :: vs))).
    apply not_ahead_app; [|assumption].
    apply not_ahead_app; [apply quote_field_not_LF|].
    cbn. now apply eqb_neq_false.
Qed.

Hypothesis lt_break : lt = nl \/ lt = cr \/ lt = crnl.

Lemma written_not_LF rows :
  Forall (fun r => r <> []) rows ->
  lt <> nl ->
  not_ahead LF (written w rows).
Proof.
  intros Hrows Hlt. destruct rows as [|[|v vs] rows]; [exact I | |].
  - inversion Hrows; congruence.
  - rewrite written_cons. unfold Writer.line_of.
    cbn [Writer.delimiter Writer.line_terminator].
    rewrite append_assoc. apply line_not_LF.
    destruct lt_break as [H|[H|H]]; [congruence | |]; rewrite H; exact eq_refl.
Qed.

Lemma after_break_not_LF rest :
  not_ahead LF rest -> after_break CR rest = rest.
Proof.
  unfold after_break. cbn. destruct rest as [|c rest]; [reflexivity|].
  cbn. now intros ->.
Qed.

Lemma scan_written_row v vs rows :
  Forall (fun r => r <> []) rows ->
  scan d q (written w ((v :: vs) :: rows)) [] [] false
  = (Row (map Writer.text_of (v :: vs)), written w rows, false).
Proof.
  intros Hrows. pose proof (written_not_LF Hrows) as Hnl.
  rewrite written_cons. unfold Writer.line_of.
  cbn [Writer.delimiter Writer.line_terminator].
  rewrite append_assoc.
  destruct lt_break as [H|[H|H]]; rewrite H in Hnl |- *.
  - cbn [nl append]. rewrite scan_fields by auto. reflexivity.
  - cbn [cr append]. rewrite scan_fields by auto. cbn [app].
    rewrite after_break_not_LF; [reflexivity|].
    apply Hnl. discriminate.
  - cbn [crnl append]. rewrite scan_fields by auto. reflexivity.
Qed.

Lemma parse_written :
  forall rows fuel,
    Forall (fun r => r <> []) rows ->
    length rows < fuel ->
    parse fuel d q (written w rows) false
    = Some (map (map Writer.text_of) rows).
Proof.
  induction rows as [|r rows IH]; intros fuel Hrows Hfuel.
  - destruct fuel; [cbn in Hfuel; lia|]. reflexivity.
  - destruct fuel; [lia|]. cbn [length] in Hfuel.
    inversion Hrows as [|? ? Hr Hrows']; subst.
    destruct r as [|v vs]; [congruence|].
    cbn [parse]. rewrite scan_written_row by assumption.
    rewrite IH by (assumption || lia). reflexivity.
Qed.

Lemma read_back_written rows :
  Forall (fun r => r <> []) rows ->
  read_back w (written w rows) = Some (map (map Writer.text_of) rows).
Proof.
  intros Hrows. unfold read_back. cbn [Writer.delimiter Writer.quotechar].
  rewrite read_csv_parse.
  pose proof (@parse_written rows (S (length rows)) Hrows
                (Nat.lt_succ_diag_r _)) as Hsmall.
  set (big := S (S (String.length (written w rows)))).
  destruct (parse big d q (written w rows) false) as [rs|] eqn:Ebig.
  - destruct (Nat.le_ge_cases big (S (length rows))) as [Hle|Hle].
    + apply parse_more_fuel with (fuel' := S (length rows)) in Ebig;
        [congruence | assumption].
    + apply parse_more_fuel with (fuel' := big) in Hsmall;
        [congruence | assumption].
  - exfalso. revert Ebig. apply parse_total. unfold big. lia.
Qed.

End RoundTrip.

(** ** One pass through the loop *)

(** A pass outside quotes: the quote character opens a quoted section
    whatever the field holds. *)
Lemma loop_body_open_quote self d q e rest row fc :
  at_text self d q e (String q rest) ->
  exists self',
    loop_body self row fc false = Continue self' row fc true
    /\ at_text self' d q e rest.
Proof.
  intros Hat. unfold loop_body.
  destruct (read_char_some Hat) as (self1 & -> & Hat1 & _).
  assert (Hq : quotechar self1 = q) by apply Hat1.
  rewrite Hq, Ascii.eqb_refl. eauto.
Qed.

(** A pass outside quotes on any other character leaves [in_quotes] off. *)
Lemma loop_body_stays_unquoted self d q e c rest row fc :
  at_text self d q e (String c rest) ->
  Ascii.eqb c q = false ->
  match loop_body self row fc false with
  | Continue _ _ _ in_quotes => in_quotes = false
  | Return _ _ => True
  end.
Proof.
  intros Hat Hc. unfold loop_body.
  destruct (read_char_some Hat) as (self1 & -> & Hat1 & _).
  assert (Hq : quotechar self1 = q) by apply Hat1.
  rewrite Hq, Hc.
  destruct (Ascii.eqb c (delimiter self1) && negb false); [reflexivity|].
  destruct ((Ascii.eqb c LF || Ascii.eqb c CR) && negb false);
    [exact I | reflexivity].
Qed.

(** A pass inside quotes on a doubled quote character. *)
Lemma loop_body_escaped_quote self d q e rest row fc :
  at_text self d q e (String q (String q rest)) ->
  exists self',
    loop_body self row fc true = Continue self' row (fc ++ [q]) true
    /\ at_text self' d q e rest.
Proof.
  intros Hat. unfold loop_body.
  destruct (read_char_some Hat) as (self1 & -> & Hat1 & _).
  assert (Hq : quotechar self1 = q) by apply Hat1.
  rewrite Hq, Ascii.eqb_refl.
  destruct (read_char_some Hat1) as (self2 & -> & Hat2 & _).
  assert (Hq2 : quotechar self2 = q) by apply Hat2.
  cbn [is_char]. rewrite Hq2, Ascii.eqb_refl. eauto.
Qed.

(** A pass at the end of the file, inside quotes or not. *)
Lemma loop_body_at_eof self d q e row fc inq :
  at_text self d q e EmptyString ->
  exists self',
    loop_body self row fc inq
    = Return (if truthy fc || truthy row
              then Row (row ++ [join_chars fc]) else StopIteration) self'
    /\ at_text self' d q true EmptyString.
Proof.
  intros Hat. unfold loop_body.
  destruct (read_char_eof Hat) as (self1 & -> & Hat1 & _).
  destruct (truthy fc || truthy row); eauto using set_eof_at.
Qed.

(** A pass outside quotes on a carriage return. *)
Lemma loop_body_carriage_return self d q e rest row fc :
  at_text self d q e (String CR rest) ->
  q <> CR -> d <> CR ->
  exists self',
    loop_body self row fc false
    = Return (Row (row ++ [join_chars fc])) self'
    /\ at_text self' d q e (after_break CR rest).
Proof.
  intros Hat Hq Hd. unfold loop_body.
  destruct (read_char_some Hat) as (self1 & -> & Hat1 & Hb1).
  assert (Hq1 : quotechar self1 = q) by apply Hat1.
  assert (Hd1 : delimiter self1 = d) by apply Hat1.
  rewrite Hq1, Hd1.
  rewrite (eqb_neq_false (not_eq_sym Hq)), (eqb_neq_false (not_eq_sym Hd)).
  cbn [andb orb negb]. change (Ascii.eqb CR LF) with false.
  change (Ascii.eqb CR CR) with true. cbn [orb andb].
  unfold after_break. change (Ascii.eqb CR CR) with true. cbn iota.
  destruct rest as [|c2 rest'].
  - destruct (read_char_eof Hat1) as (self2 & -> & Hat2 & _).
    cbn. eauto.
  - destruct (read_char_some Hat1) as (self2 & -> & Hat2 & Hb2).
    cbn [is_char]. destruct (Ascii.eqb c2 LF); cbn [orb negb].
    + eauto.
    + eexists; split; [reflexivity|].
      apply (unread_char_at (Some c2) Hat2 Hb2).
Qed.

(** A pass outside quotes on a line feed. *)
Lemma loop_body_line_feed self d q e rest row fc :
  at_text self d q e (String LF rest) ->
  q <> LF -> d <> LF ->
  exists self',
    loop_body self row fc false
    = Return (Row (row ++ [join_chars fc])) self'
    /\ at_text self' d q e rest.
Proof.
  intros Hat Hq Hd. unfold loop_body.
  destruct (read_char_some Hat) as (self1 & -> & Hat1 & Hb1).
  assert (Hq1 : quotechar self1 = q) by apply Hat1.
  assert (Hd1 : delimiter self1 = d) by apply Hat1.
  rewrite Hq1, Hd1.
  rewrite (eqb_neq_false (not_eq_sym Hq)), (eqb_neq_false (not_eq_sym Hd)).
  change (Ascii.eqb LF LF) with true. change (Ascii.eqb LF CR) with false.
  cbn [andb orb negb]. eauto.
Qed.

(** ** What a call can return *)

Lemma loop_body_row_nonempty self row fc inq r self' :
  loop_body self row fc inq = Return (Row r) self' -> r <> [].
Proof.
  unfold loop_body.
  destruct (_read_char self) as [[c|] self1].
  - destruct (Ascii.eqb c (quotechar self1)).
    { destruct inq; [|discriminate].
      destruct (_read_char self1) as [o self2].
      destruct (is_char o (quotechar self2)); discriminate. }
    destruct (Ascii.eqb c (delimiter self1) && negb inq); [discriminate|].
    destruct ((Ascii.eqb c LF || Ascii.eqb c CR) && negb inq);
      [|discriminate].
    intros H. injection H as <- _. now destruct row.
  - destruct (truthy fc || truthy row); [|discriminate].
    intros H. injection H as <- _. now destruct row.
Qed.

Lemma loop_body_stop_eof self row fc inq self' :
  loop_body self row fc inq = Return StopIteration self' -> _eof self' = true.
Proof.
  unfold loop_body.
  destruct (_read_char self) as [[c|] self1].
  - destruct (Ascii.eqb c (quotechar self1)).
    { destruct inq; [|discriminate].
      destruct (_read_char self1) as [o self2].
      destruct (is_char o (quotechar self2)); discriminate. }
    destruct (Ascii.eqb c (delimiter self1) && negb inq); [discriminate|].
    destruct ((Ascii.eqb c LF || Ascii.eqb c CR) && negb inq);
      discriminate.
  - destruct (truthy fc || truthy row); [discriminate|].
    intros H. injection H as <-. reflexivity.
Qed.

Lemma next_loop_row_nonempty :
  forall fuel self row fc inq r self',
    next_loop fuel self row fc inq = Some (Row r, self') -> r <> [].
Proof.
  induction fuel as [|fuel IH]; intros self row fc inq r self' H;
    [discriminate|].
  cbn [next_loop] in H.
  destruct (loop_body self row fc inq) as [s1 row1 fc1 inq1|res s1] eqn:E.
  - eapply IH; eassumption.
  - injection H as -> ->. eapply loop_body_row_nonempty; eassumption.
Qed.

Lemma next_loop_stop_eof :
  forall fuel self row fc inq self',
    next_loop fuel self row fc inq = Some (StopIteration, self') ->
    _eof self' = true.
Proof.
  induction fuel as [|fuel IH]; intros self row fc inq self' H;
    [discriminate|].
  cbn [next_loop] in H.
  destruct (loop_body self row fc inq) as [s1 row1 fc1 inq1|res s1] eqn:E.
  - eapply IH; eassumption.
  - injection H as -> ->. eapply loop_body_stop_eof; eassumption.
Qed.

Lemma next_total self :
  exists result self', __next__ self = Some (result, self').
Proof.
  destruct (_eof self) eqn:E.
  - rewrite next_at_eof by assumption. eauto.
  - destruct (@next_scan self (delimiter self) (quotechar self) (unread self))
      as (self' & H & _).
    + unfold at_text. auto.
    + eauto.
Qed.

Lemma drain_rows_nonempty :
  forall fuel self rows self',
    drain fuel self = Some (rows, self') -> Forall (fun r => r <> []) rows.
Proof.
  induction fuel as [|fuel IH]; intros self rows self' H; [discriminate|].
  cbn [drain] in H.
  destruct (__next__ self) as [[[r|] s1]|] eqn:E; try discriminate.
  - destruct (drain fuel s1) as [[rs s2]|] eqn:E2; [|discriminate].
    injection H as <- <-. constructor; [|eapply IH; eassumption].
    unfold __next__ in E. destruct (_eof self); [discriminate|].
    eapply next_loop_row_nonempty; eassumption.
  - injection H as <- <-. constructor.
Qed.

Lemma scan_inside_quotes d q :
  forall body row fc,
    contains q body = false ->
    scan d q body row fc true
    = scan d q EmptyString row (fc ++ list_ascii_of_string body) true.
Proof.
  induction body as [|c body IH]; intros row fc Hq.
  - cbn [list_ascii_of_string]. now rewrite app_nil_r.
  - apply contains_cons_false in Hq as [Hc Hq].
    cbn [scan list_ascii_of_string]. rewrite Hc. cbn [negb].
    rewrite !andb_false_r. rewrite IH by assumption.
    now rewrite <- app_assoc.
Qed.

(** ** The claims about the reader's loop *)

(** C2, as the code has it: outside a quoted section the quote character
    opens a quoted section wherever it stands in the field, also after
    other characters have been accumulated; the row and the accumulated
    characters are left as they are and the quote is not appended.  Any
    other character leaves the reader outside quotes. *)
Theorem quote_opens_section_anywhere self d q e c rest row fc :
  at_text self d q e (String c rest) ->
  match loop_body self row fc false with
  | Continue self' row' fc' in_quotes' =>
      in_quotes' = Ascii.eqb c q
      /\ (Ascii.eqb c q = true ->
          row' = row /\ fc' = fc /\ at_text self' d q e rest)
  | Return _ _ => Ascii.eqb c q = false
  end.
Proof.
  intros Hat. destruct (Ascii.eqb c q) eqn:E.
  - apply Ascii.eqb_eq in E. subst c.
    destruct (loop_body_open_quote row fc Hat) as (self' & -> & Hat').
    auto.
  - pose proof (loop_body_stays_unquoted row fc Hat E) as H.
    destruct (loop_body self row fc false); [|reflexivity].
    split; [assumption | discriminate].
Qed.

Lemma quote_opens_section_anywhere_witness :
  match loop_body (new_reader (TextIO.open (dq ++ "c,d" ++ dq)) COMMA DQUOTE)
                  [] ["a"; "b"]%char false with
  | Continue self' row' fc' in_quotes' =>
      in_quotes' = Ascii.eqb DQUOTE DQUOTE
      /\ (Ascii.eqb DQUOTE DQUOTE = true ->
          row' = [] /\ fc' = ["a"; "b"]%char
          /\ at_text self' COMMA DQUOTE false ("c,d" ++ dq))
  | Return _ _ => Ascii.eqb DQUOTE DQUOTE = false
  end.
Proof.
  apply (@quote_opens_section_anywhere
           (new_reader (TextIO.open (dq ++ "c,d" ++ dq)) COMMA DQUOTE)
           COMMA DQUOTE false DQUOTE ("c,d" ++ dq)).
  unfold at_text. cbn. repeat split; reflexivity.
Defined.

(** C2 as stated fails: in the stream made of [ab], a quote, [c,d], a quote
    and a line feed, the first quote comes after [ab] was accumulated into
    an unquoted field, and it starts a quoted section; the comma that
    follows is kept as content. *)
Lemma quote_after_content_opens_section :
  loop_body (new_reader (TextIO.open (dq ++ "c,d" ++ dq)) COMMA DQUOTE)
            [] ["a"; "b"]%char false
  = Continue (new_reader (TextIO.mk ("c,d" ++ dq) 1) COMMA DQUOTE)
             [] ["a"; "b"]%char true
  /\ read_csv COMMA DQUOTE ("ab" ++ dq ++ "c,d" ++ dq ++ nl)
     = Some [["abc,d"]].
Proof. split; reflexivity. Qed.

(** C4: inside a quoted section, the quote character followed at once by
    another quote character appends one quote character to the field and
    leaves the reader inside the quoted section, both characters consumed;
    the raw field that the spec gives, [He said] and [hi] wrapped in
    doubled quotes inside a quoted field, parses to [He said] followed by
    [hi] between single quote characters. *)
Theorem escaped_quote_appends_one_quote self d q e rest row fc :
  at_text self d q e (String q (String q rest)) ->
  (exists self',
     loop_body self row fc true = Continue self' row (fc ++ [q]) true
     /\ at_text self' d q e rest)
  /\ read_csv COMMA DQUOTE
       (dq ++ "He said " ++ dq ++ dq ++ "hi" ++ dq ++ dq ++ dq)
     = Some [["He said " ++ dq ++ "hi" ++ dq]].
Proof.
  intros Hat. split; [now apply loop_body_escaped_quote | reflexivity].
Qed.

Lemma escaped_quote_appends_one_quote_witness :
  (exists self',
     loop_body (new_reader (TextIO.open (dq ++ dq ++ "hi")) COMMA DQUOTE)
               [] ["x"]%char true
     = Continue self' [] (["x"]%char ++ [DQUOTE]) true
     /\ at_text self' COMMA DQUOTE false "hi")
  /\ read_csv COMMA DQUOTE
       (dq ++ "He said " ++ dq ++ dq ++ "hi" ++ dq ++ dq ++ dq)
     = Some [["He said " ++ dq ++ "hi" ++ dq]].
Proof.
  apply (@escaped_quote_appends_one_quote
           (new_reader (TextIO.open (dq ++ dq ++ "hi")) COMMA DQUOTE)
           COMMA DQUOTE false "hi").
  unfold at_text. cbn. repeat split; reflexivity.
Defined.

(** C6, as the code has it: at the end of the stream inside an open quoted
    section the call ends without error and sets the end-of-stream flag; it
    returns the row with the accumulated characters as its last field when
    a character was accumulated or a field was already in the row, and
    signals end-of-sequence otherwise.  A stream that is one quote
    character followed by a non-empty text without quote characters parses
    to the single row whose single field is that text; so a quote followed
    by [abc] parses to [abc]. *)
Theorem unterminated_quote_returns_content self d q e row fc body :
  at_text self d q e EmptyString ->
  contains q body = false ->
  body <> EmptyString ->
  (exists self',
     loop_body self row fc true
     = Return (if truthy fc || truthy row
               then Row (row ++ [join_chars fc]) else StopIteration) self'
     /\ _eof self' = true)
  /\ read_csv d q (String q body) = Some [[body]]
  /\ read_csv COMMA DQUOTE (dq ++ "abc") = Some [["abc"]].
Proof.
  intros Hat Hq Hbody. split; [|split; [|reflexivity]].
  - destruct (loop_body_at_eof row fc true Hat) as (self' & H & Hat').
    exists self'. split; [assumption | apply Hat'].
  - rewrite read_csv_parse. cbn [parse scan].
    rewrite Ascii.eqb_refl, scan_inside_quotes by assumption.
    cbn [app scan].
    destruct body as [|c body]; [congruence|].
    cbn [list_ascii_of_string truthy orb].
    change (c :: list_ascii_of_string body)
      with (list_ascii_of_string (String c body)).
    rewrite join_chars_of_string. reflexivity.
Qed.

Lemma unterminated_quote_returns_content_witness :
  (exists self',
     loop_body (new_reader (TextIO.open EmptyString) COMMA DQUOTE)
               ["a"] ["b"; "c"]%char true
     = Return (if truthy ["b"; "c"]%char || truthy ["a"]
               then Row (["a"] ++ [join_chars ["b"; "c"]%char])
               else StopIteration) self'
     /\ _eof self' = true)
  /\ read_csv COMMA DQUOTE (String DQUOTE ("x,y" ++ nl ++ "z"))
     = Some [["x,y" ++ nl ++ "z"]]
  /\ read_csv COMMA DQUOTE (dq ++ "abc") = Some [["abc"]].
Proof.
  apply (@unterminated_quote_returns_content
           (new_reader (TextIO.open EmptyString) COMMA DQUOTE)
           COMMA DQUOTE false).
  - unfold at_text. cbn. repeat split; reflexivity.
  - reflexivity.
  - discriminate.
Defined.

(** C6 as stated fails: the stream that is one quote character ends inside
    an open quoted section, and the reader returns no row at all. *)
Lemma lone_quote_yields_no_row :
  line_closed DQUOTE false dq = false
  /\ loop_body (new_reader (TextIO.mk EmptyString 1) COMMA DQUOTE) [] [] true
     = Return StopIteration
         (mkReader (TextIO.mk EmptyString 2) COMMA DQUOTE None true)
  /\ read_csv COMMA DQUOTE dq = Some [].
Proof. repeat split; reflexivity. Qed.

(** C8: every row that [__next__] returns, and so every row of a read,
    has at least one field; on an empty stream the first call signals
    end-of-sequence, and the read yields no row. *)
Theorem returned_row_has_a_field :
  (forall self r self', __next__ self = Some (Row r, self') -> r <> [])
  /\ (forall d q text rows,
        read_csv d q text = Some rows -> Forall (fun r => r <> []) rows)
  /\ (forall d q,
        __next__ (new_reader (TextIO.open EmptyString) d q)
        = Some (StopIteration,
                mkReader (TextIO.mk EmptyString 1) d q None true))
  /\ (forall d q, read_csv d q EmptyString = Some []).
Proof.
  split; [|split; [|split]].
  - intros self r self' H. unfold __next__ in H.
    destruct (_eof self); [discriminate|].
    eapply next_loop_row_nonempty; eassumption.
  - intros d q text rows H. unfold read_csv, list_reader in H.
    destruct (drain _ _) as [[rs s]|] eqn:E; [|discriminate].
    injection H as <-. eapply drain_rows_nonempty; eassumption.
  - reflexivity.
  - reflexivity.
Qed.

Lemma returned_row_has_a_field_witness : ["a"; EmptyString] <> [].
Proof.
  apply (proj1 returned_row_has_a_field
           (new_reader (TextIO.open ("a," ++ nl ++ "b")) COMMA DQUOTE)
           ["a"; EmptyString]
           (new_reader (TextIO.mk "b" 3) COMMA DQUOTE)).
  reflexivity.
Defined.

(** C9: when [__next__] has signalled end-of-sequence the end-of-stream
    flag is set, and from then on every call signals end-of-sequence and
    leaves the reader and its stream as they are, so without a read, also
    when the stream holds further characters. *)
Theorem exhausted_reader_stays_exhausted self self' :
  __next__ self = Some (StopIteration, self') ->
  _eof self' = true
  /\ forall f : TextIO.t,
       __next__ (set_file self' f) = Some (StopIteration, set_file self' f).
Proof.
  intros H.
  assert (He : _eof self' = true).
  { unfold __next__ in H. destruct (_eof self) eqn:E.
    - injection H as <-. assumption.
    - eapply next_loop_stop_eof; eassumption. }
  split; [assumption|].
  intros f. apply next_at_eof. exact He.
Qed.

Lemma exhausted_reader_stays_exhausted_witness :
  _eof (mkReader (TextIO.mk EmptyString 1) COMMA DQUOTE None true) = true
  /\ forall f : TextIO.t,
       __next__ (set_file (mkReader (TextIO.mk EmptyString 1)
                                    COMMA DQUOTE None true) f)
       = Some (StopIteration,
               set_file (mkReader (TextIO.mk EmptyString 1)
                                  COMMA DQUOTE None true) f).
Proof.
  apply (@exhausted_reader_stays_exhausted
           (new_reader (TextIO.open EmptyString) COMMA DQUOTE)).
  reflexivity.
Defined.

(** ** The claims about the writer and the round trip *)

Lemma map_text_of_PyStr (r : list string) :
  map Writer.text_of (map PyStr r) = r.
Proof. induction r as [|x r IH]; cbn; congruence. Qed.

Lemma map_map_text_of_PyStr (rows : list (list string)) :
  map (map Writer.text_of) (map (map PyStr) rows) = rows.
Proof.
  induction rows as [|r rows IH]; cbn; [reflexivity|].
  now rewrite map_text_of_PyStr, IH.
Qed.

(** C1, as the code has it: when the delimiter and the quote character are
    distinct and neither is a line feed or a carriage return, the line
    terminator is a line feed, a carriage return or a carriage return and a
    line feed, and every row has at least one field, the text that
    [writerows] writes reads back, with the same delimiter and quote
    character, as exactly the rows written; so [N] rows read back as [N]
    rows. *)
Theorem write_then_read_gives_rows_back
    (w : Writer.CustomCsvWriter) (rows : list (list string)) :
  Writer.delimiter w <> Writer.quotechar w ->
  Writer.delimiter w <> LF -> Writer.delimiter w <> CR ->
  Writer.quotechar w <> LF -> Writer.quotechar w <> CR ->
  Writer.line_terminator w = nl \/ Writer.line_terminator w = cr
  \/ Writer.line_terminator w = crnl ->
  Forall (fun r => r <> []) rows ->
  read_back w (written w (map (map PyStr) rows)) = Some rows
  /\ option_map (@length (list string))
       (read_back w (written w (map (map PyStr) rows)))
     = Some (length rows).
Proof.
  destruct w as [d q lt]. cbn [Writer.delimiter Writer.quotechar
                               Writer.line_terminator].
  intros Hdq Hd1 Hd2 Hq1 Hq2 Hlt Hrows.
  assert (H : read_back (Writer.mk d q lt)
                (written (Writer.mk d q lt) (map (map PyStr) rows))
              = Some rows).
  { rewrite read_back_written; try assumption.
    - now rewrite map_map_text_of_PyStr.
    - clear -Hrows. induction Hrows as [|r rows Hr _ IH]; cbn;
        constructor; [|assumption].
      destruct r; [congruence | discriminate]. }
  split; [assumption|]. now rewrite H.
Qed.

Lemma write_then_read_gives_rows_back_witness :
  read_back Writer.default
    (written Writer.default
       (map (map PyStr)
            [["a"; "b,c"]; ["d" ++ dq ++ "e"; "f" ++ nl ++ "g"];
             [EmptyString]]))
  = Some [["a"; "b,c"]; ["d" ++ dq ++ "e"; "f" ++ nl ++ "g"]; [EmptyString]]
  /\ option_map (@length (list string))
       (read_back Writer.default
          (written Writer.default
             (map (map PyStr)
                  [["a"; "b,c"]; ["d" ++ dq ++ "e"; "f" ++ nl ++ "g"];
                   [EmptyString]])))
     = Some (length [["a"; "b,c"]; ["d" ++ dq ++ "e"; "f" ++ nl ++ "g"];
                     [EmptyString]]).
Proof.
  apply (@write_then_read_gives_rows_back Writer.default).
  - discriminate.
  - discriminate.
  - discriminate.
  - discriminate.
  - discriminate.
  - left. reflexivity.
  - repeat constructor; discriminate.
Defined.

(** C1 as stated fails: with the default delimiter and quote character,
    which are distinct, and the line terminator [;], the two rows [a] and
    [b] are written as [a;b;] and read back as one row with that one field. *)
Lemma roundtrip_fails_on_other_terminator :
  Writer.delimiter (Writer.mk COMMA DQUOTE ";")
  <> Writer.quotechar (Writer.mk COMMA DQUOTE ";")
  /\ written (Writer.mk COMMA DQUOTE ";") (map (map PyStr) [["a"]; ["b"]])
     = "a;b;"
  /\ read_back (Writer.mk COMMA DQUOTE ";")
       (written (Writer.mk COMMA DQUOTE ";") (map (map PyStr) [["a"]; ["b"]]))
     = Some [["a;b;"]]
  /\ read_back (Writer.mk COMMA DQUOTE ";")
       (written (Writer.mk COMMA DQUOTE ";") (map (map PyStr) [["a"]; ["b"]]))
     <> Some [["a"]; ["b"]].
Proof. repeat split; try reflexivity; discriminate. Qed.

(** The other conditions of the round trip are needed as well. *)

(** A row without fields is written as an empty line and reads back as a
    row with one empty field. *)
Example roundtrip_fails_on_empty_row :
  read_back Writer.default (written Writer.default [[]])
  = Some [[EmptyString]].
Proof. reflexivity. Qed.

(** With the line feed as delimiter, the row [a], [b] reads back with a
    third, empty field. *)
Example roundtrip_fails_on_line_feed_delimiter :
  read_back (Writer.mk LF DQUOTE nl)
    (written (Writer.mk LF DQUOTE nl) (map (map PyStr) [["a"; "b"]]))
  = Some [["a"; "b"; EmptyString]].
Proof. reflexivity. Qed.

(** With the line feed as quote character, the rows [a] and [b] read back
    as the single row [ab]. *)
Example roundtrip_fails_on_line_feed_quotechar :
  read_back (Writer.mk COMMA LF nl)
    (written (Writer.mk COMMA LF nl) (map (map PyStr) [["a"]; ["b"]]))
  = Some [["ab"]].
Proof. reflexivity. Qed.

(** With the carriage return as quote character and as line terminator, the
    rows [a] and [b] read back as the single row [ab]. *)
Example roundtrip_fails_on_carriage_return_quotechar :
  read_back (Writer.mk COMMA CR cr)
    (written (Writer.mk COMMA CR cr) (map (map PyStr) [["a"]; ["b"]]))
  = Some [["ab"]].
Proof. reflexivity. Qed.

(** With the carriage return as delimiter and as line terminator, the rows
    [a] and [b] read back as one row of three fields. *)
Example roundtrip_fails_on_carriage_return_delimiter :
  read_back (Writer.mk CR DQUOTE cr)
    (written (Writer.mk CR DQUOTE cr) (map (map PyStr) [["a"]; ["b"]]))
  = Some [["a"; "b"; EmptyString]].
Proof. reflexivity. Qed.

Lemma getvalue_app (a b : Sink.t) :
  Sink.getvalue (a ++ b)%list = Sink.getvalue a ++ Sink.getvalue b.
Proof.
  unfold Sink.getvalue. induction a as [|x a IH]; [reflexivity|].
  cbn [app]. rewrite !concat_empty_cons, IH. now rewrite append_assoc.
Qed.

Lemma must_quote_iff w text :
  Writer.must_quote w text = true
  <-> In (Writer.delimiter w) (list_ascii_of_string text)
      \/ In (Writer.quotechar w) (list_ascii_of_string text)
      \/ In LF (list_ascii_of_string text)
      \/ In CR (list_ascii_of_string text).
Proof.
  unfold Writer.must_quote. rewrite !orb_true_iff, !contains_In. tauto.
Qed.

Lemma replace_doubles q text :
  list_ascii_of_string
    (replace q (String q (String q EmptyString)) text)
  = flat_map (fun c => if Ascii.eqb c q then [q; q] else [c])
             (list_ascii_of_string text).
Proof.
  induction text as [|c text IH]; [reflexivity|].
  cbn [replace list_ascii_of_string flat_map].
  destruct (Ascii.eqb c q); cbn; now rewrite IH.
Qed.

(** C3: the writer wraps a field in quote characters exactly when its text
    holds the delimiter, the quote character, a line feed or a carriage
    return; the wrapped text is the field's text with each quote character
    written twice and every other character as it is; a field that needs no
    quoting is written as it is.  With the default dialect [plain] stays
    [plain], [a,b] is wrapped, and [a], quote, [b] is wrapped with the quote
    doubled; [None] is written as the empty text. *)
Theorem quote_field_quotes_when_needed
    (w : Writer.CustomCsvWriter) (v : value) :
  let text := Writer.text_of v in
  let q := Writer.quotechar w in
  let special :=
    In (Writer.delimiter w) (list_ascii_of_string text)
    \/ In q (list_ascii_of_string text)
    \/ In LF (list_ascii_of_string text)
    \/ In CR (list_ascii_of_string text) in
  (special ->
   exists escaped,
     Writer._quote_field w v = String q (escaped ++ String q EmptyString)
     /\ list_ascii_of_string escaped
        = flat_map (fun c => if Ascii.eqb c q then [q; q] else [c])
                   (list_ascii_of_string text))
  /\ (~ special -> Writer._quote_field w v = text)
  /\ ((exists body,
         Writer._quote_field w v = String q (body ++ String q EmptyString))
      <-> special)
  /\ Writer._quote_field Writer.default (PyStr "plain") = "plain"
  /\ Writer._quote_field Writer.default (PyStr "a,b") = dq ++ "a,b" ++ dq
  /\ Writer._quote_field Writer.default (PyStr ("a" ++ dq ++ "b"))
     = dq ++ "a" ++ dq ++ dq ++ "b" ++ dq
  /\ Writer._quote_field w PyNone = EmptyString.
Proof.
  intros text q special.
  assert (Hyes : special ->
    Writer._quote_field w v
    = String q (replace q (String q (String q EmptyString)) text
                ++ String q EmptyString)).
  { intros H. apply must_quote_iff in H. unfold Writer._quote_field.
    fold text. now rewrite H. }
  assert (Hno : ~ special -> Writer._quote_field w v = text).
  { intros H. unfold Writer._quote_field. fold text.
    destruct (Writer.must_quote w text) eqn:E; [|reflexivity].
    apply must_quote_iff in E. contradiction. }
  repeat split; try reflexivity.
  - intros H. eexists. split; [apply (Hyes H) | apply replace_doubles].
  - exact Hno.
  - intros (body & Hbody).
    destruct (Writer.must_quote w text) eqn:E;
      [now apply must_quote_iff in E|].
    exfalso. unfold Writer._quote_field in Hbody. fold text in Hbody.
    rewrite E in Hbody.
    unfold Writer.must_quote in E.
    apply orb_false_elim in E as [E _].
    apply orb_false_elim in E as [E _].
    apply orb_false_elim in E as [_ E].
    fold q in E. rewrite Hbody in E. cbn in E.
    now rewrite Ascii.eqb_refl in E.
  - intros H. eexists. apply (Hyes H).
Qed.

Lemma quote_field_quotes_when_needed_witness :
  exists escaped,
    Writer._quote_field Writer.default (PyStr ("a" ++ dq ++ ",b"))
    = String DQUOTE (escaped ++ String DQUOTE EmptyString)
    /\ list_ascii_of_string escaped
       = flat_map (fun c => if Ascii.eqb c DQUOTE then [DQUOTE; DQUOTE]
                            else [c])
                  (list_ascii_of_string ("a" ++ dq ++ ",b")).
Proof.
  apply (proj1 (quote_field_quotes_when_needed Writer.default
                  (PyStr ("a" ++ dq ++ ",b")))).
  left. cbn. auto.
Defined.

(** C7: [writerow] makes one append to the sink, the written fields joined
    by the delimiter and followed by the line terminator; [writerows]
    appends the lines of its rows in order and nothing else, so the text of
    the sink grows by the lines one after the other, and by nothing for no
    rows; the two rows of the spec's scenario are written with the default
    dialect as the text the spec gives. *)
Theorem writer_appends_lines_in_order
    (w : Writer.CustomCsvWriter) (row : list value)
    (rows : list (list value)) (out : Sink.t) :
  let line := fun r =>
    String.concat (String (Writer.delimiter w) EmptyString)
                  (map (Writer._quote_field w) r)
    ++ Writer.line_terminator w in
  Writer.writerow w row out = (out ++ [line row])%list
  /\ Writer.writerows w rows out = (out ++ map line rows)%list
  /\ Sink.getvalue (Writer.writerows w rows out)
     = Sink.getvalue out ++ String.concat EmptyString (map line rows)
  /\ Writer.writerows w [] out = out
  /\ Writer.writerows w (row :: rows) out
     = Writer.writerows w rows (Writer.writerow w row out)
  /\ written Writer.default
       [[PyStr "a"; PyStr "b,c"];
        [PyStr ("d" ++ dq ++ "e"); PyStr ("f" ++ nl ++ "g")]]
     = "a," ++ dq ++ "b,c" ++ dq ++ nl
       ++ dq ++ "d" ++ dq ++ dq ++ "e" ++ dq ++ ","
       ++ dq ++ "f" ++ nl ++ "g" ++ dq ++ nl.
Proof.
  intros line. repeat split.
  - apply writerows_app.
  - rewrite writerows_app, getvalue_app. reflexivity.
Qed.

(** ** Line endings *)

Lemma length_append (a b : string) :
  String.length (a ++ b) = String.length a + String.length b.
Proof. induction a; cbn; congruence. Qed.

Lemma concat_cons_cons sep x y (l : list string) :
  String.concat sep (x :: y :: l) = x ++ sep ++ String.concat sep (y :: l).
Proof. reflexivity. Qed.

Section LineEndings.

Variables d q : ascii.
Hypothesis d_not_LF : d <> LF.
Hypothesis d_not_CR : d <> CR.
Hypothesis q_not_LF : q <> LF.
Hypothesis q_not_CR : q <> CR.

Lemma break_not_quote c : c = LF \/ c = CR -> Ascii.eqb c q = false.
Proof. intros [->| ->]; apply Ascii.eqb_neq; congruence. Qed.

(** A raw row followed by a line break is read as that row followed by a
    line feed, and the reader stops behind the break. *)
Lemma scan_line :
  forall n line row fc inq c rest,
    String.length line <= n ->
    line_closed q inq line = true ->
    c = LF \/ c = CR ->
    scan d q (line ++ String c rest) row fc inq
    = (fst (fst (scan d q (line ++ nl) row fc inq)),
       after_break c rest, false).
Proof.
  induction n as [|n IH]; intros line row fc inq c rest Hlen Hcl Hc.
  - destruct line; [|cbn in Hlen; lia].
    cbn in Hcl. destruct inq; [discriminate|].
    cbn [append]. unfold nl.
    rewrite !(scan_break d_not_LF d_not_CR q_not_LF q_not_CR) by auto.
    reflexivity.
  - destruct line as [|a line'].
    { apply (IH EmptyString); [cbn; lia | assumption | assumption]. }
    cbn [String.length] in Hlen. cbn [line_closed] in Hcl.
    cbn [append scan].
    destruct (Ascii.eqb a q) eqn:Eq.
    { destruct inq; cbn [negb] in Hcl.
      - destruct line' as [|a2 line''].
        + cbn [append]. unfold nl. rewrite (break_not_quote Hc).
          change (Ascii.eqb LF q) with (Ascii.eqb LF q).
          rewrite (break_not_quote (or_introl eq_refl)).
          apply (IH EmptyString); [cbn; lia | reflexivity | assumption].
        + cbn [append]. cbn [line_closed] in Hcl.
          cbn [String.length] in Hlen.
          destruct (Ascii.eqb a2 q) eqn:Eq2.
          * cbn [negb] in Hcl. apply IH; [lia | assumption | assumption].
          * apply (IH (String a2 line''));
              [cbn; lia | | assumption].
            cbn [line_closed]. now rewrite Eq2.
      - apply IH; [lia | assumption | assumption]. }
    destruct (Ascii.eqb a d && negb inq) eqn:Ed.
    { apply andb_prop in Ed as [Ead Einq].
      apply Ascii.eqb_eq in Ead. subst a.
      rewrite (eqb_neq_false d_not_LF), (eqb_neq_false d_not_CR) in Hcl.
      cbn [orb andb] in Hcl.
      apply IH; [lia | assumption | assumption]. }
    destruct ((Ascii.eqb a LF || Ascii.eqb a CR) && negb inq);
      [discriminate|].
    apply IH; [lia | assumption | assumption].
Qed.

(** The fields that the writer renders, joined by the delimiter, are a raw
    row in this sense. *)
Lemma closed_plain text s :
  contains q text = false -> contains LF text = false ->
  contains CR text = false ->
  line_closed q false (text ++ s) = line_closed q false s.
Proof.
  induction text as [|c text IH]; intros Hq Hlf Hcr; [reflexivity|].
  apply contains_cons_false in Hq, Hlf, Hcr.
  destruct Hq as [Hq Hq'], Hlf as [Hlf Hlf'], Hcr as [Hcr Hcr'].
  cbn [append line_closed]. rewrite Hq, Hlf, Hcr. cbn [orb andb].
  now apply IH.
Qed.

Lemma closed_quoted text s :
  line_closed q true
    (replace q (String q (String q EmptyString)) text ++ String q s)
  = line_closed q false s.
Proof.
  induction text as [|c text IH]; cbn [replace append line_closed].
  - now rewrite Ascii.eqb_refl.
  - destruct (Ascii.eqb c q) eqn:E.
    + cbn [append line_closed]. rewrite !Ascii.eqb_refl. cbn [negb].
      exact IH.
    + cbn [append line_closed]. rewrite E. cbn [negb].
      rewrite andb_false_r. exact IH.
Qed.

Lemma closed_field lt v s :
  line_closed q false (Writer._quote_field (Writer.mk d q lt) v ++ s)
  = line_closed q false s.
Proof.
  unfold Writer._quote_field.
  destruct (Writer.must_quote _ _) eqn:E.
  - cbn [Writer.quotechar append]. rewrite append_assoc.
    cbn [append line_closed]. rewrite Ascii.eqb_refl. cbn [negb].
    apply closed_quoted.
  - unfold Writer.must_quote in E.
    cbn [Writer.delimiter Writer.quotechar] in E.
    apply orb_false_elim in E as [E Hcr].
    apply orb_false_elim in E as [E Hlf].
    apply orb_false_elim in E as [_ Hq].
    now apply closed_plain.
Qed.

Lemma written_row_closed lt (row : list value) :
  d <> q ->
  line_closed q false
    (String.concat (String d EmptyString)
       (map (Writer._quote_field (Writer.mk d q lt)) row)) = true.
Proof.
  intros Hdq. induction row as [|v [|v2 row] IH]; [reflexivity | |].
  - cbn [map String.concat].
    rewrite <- (append_nil_r (Writer._quote_field _ v)).
    now rewrite closed_field.
  - change (map (Writer._quote_field (Writer.mk d q lt)) (v :: v2 :: row))
      with (Writer._quote_field (Writer.mk d q lt) v
            :: map (Writer._quote_field (Writer.mk d q lt)) (v2 :: row)).
    cbn [map] in IH |- *. rewrite concat_cons_cons, closed_field.
    cbn [append line_closed].
    rewrite (eqb_neq_false Hdq), (eqb_neq_false d_not_LF),
      (eqb_neq_false d_not_CR).
    cbn [orb andb]. exact IH.
Qed.

Lemma closed_not_LF line :
  line_closed q false line = true -> not_ahead LF line.
Proof.
  destruct line as [|a line]; cbn; [auto|].
  destruct (Ascii.eqb a LF) eqn:E; [|reflexivity].
  apply Ascii.eqb_eq in E. subst a.
  rewrite (eqb_neq_false (not_eq_sym q_not_LF)). discriminate.
Qed.

Lemma concat_cr_not_LF lines :
  Forall (fun l => line_closed q false l = true) lines ->
  not_ahead LF (String.concat cr lines).
Proof.
  intros H. destruct H as [|l lines Hl Hls]; [exact I|].
  destruct lines as [|l2 lines].
  - cbn. now apply closed_not_LF.
  - rewrite concat_cons_cons.
    apply not_ahead_app; [now apply closed_not_LF | reflexivity].
Qed.

(** What is left after the first of several raw rows, for each of the three
    separators. *)
Lemma scan_first_line sep l l2 lines :
  sep = nl \/ sep = cr \/ sep = crnl ->
  Forall (fun l => line_closed q false l = true) (l :: l2 :: lines) ->
  scan d q (String.concat sep (l :: l2 :: lines)) [] [] false
  = (fst (fst (scan d q (l ++ nl) [] [] false)),
     String.concat sep (l2 :: lines), false).
Proof.
  intros Hsep Hall. inversion Hall as [|? ? Hl Hrest]; subst.
  rewrite concat_cons_cons.
  destruct Hsep as [->|[->| ->]].
  - cbn [nl append].
    rewrite (@scan_line (String.length l)) by auto. reflexivity.
  - cbn [cr append].
    rewrite (@scan_line (String.length l)) by auto.
    rewrite after_break_not_LF; [reflexivity|].
    now apply concat_cr_not_LF.
  - cbn [crnl append].
    rewrite (@scan_line (String.length l)) by auto. reflexivity.
Qed.

Lemma parse_enough_fuel fuel fuel' s :
  String.length s + 2 <= fuel -> String.length s + 2 <= fuel' ->
  parse fuel d q s false = parse fuel' d q s false.
Proof.
  intros H H'.
  destruct (parse (String.length s + 2) d q s false) as [rows|] eqn:E.
  - rewrite (@parse_more_fuel d q _ _ _ _ _ E H).
    rewrite (@parse_more_fuel d q _ _ _ _ _ E H'). reflexivity.
  - exfalso. revert E. apply parse_total. lia.
Qed.

Lemma parse_lines :
  forall lines,
    Forall (fun l => line_closed q false l = true) lines ->
    forall sep fuel,
      sep = nl \/ sep = cr \/ sep = crnl ->
      String.length (String.concat sep lines) + 2 <= fuel ->
      parse fuel d q (String.concat sep lines) false
      = parse (String.length (String.concat nl lines) + 2) d q
              (String.concat nl lines) false.
Proof.
  induction lines as [|l lines IH]; intros Hall sep fuel Hsep Hfuel.
  - apply parse_enough_fuel; [assumption | cbn; lia].
  - destruct lines as [|l2 lines].
    + apply parse_enough_fuel; [assumption | cbn; lia].
    + assert (Hrest : Forall (fun l => line_closed q false l = true)
                             (l2 :: lines))
        by (inversion Hall; assumption).
      assert (Hlen : forall s, s <> EmptyString ->
                String.length (String.concat s (l2 :: lines)) + 1
                <= String.length (String.concat s (l :: l2 :: lines))).
      { intros s Hs. rewrite (concat_cons_cons s l l2 lines).
        rewrite !length_append. destruct s; [congruence|]. cbn. lia. }
      destruct fuel as [|fuel]; [lia|].
      replace (String.length (String.concat nl (l :: l2 :: lines)) + 2)
        with (S (String.length (String.concat nl (l :: l2 :: lines)) + 1))
        by lia.
      cbn [parse].
      rewrite (scan_first_line Hsep Hall).
      rewrite (scan_first_line (or_introl eq_refl) Hall).
      destruct (fst (fst (scan d q (l ++ nl) [] [] false))) as [r|];
        [|reflexivity].
      f_equal.
      rewrite (IH Hrest sep fuel Hsep).
      * symmetry. apply (IH Hrest nl); [auto|].
        specialize (Hlen nl). unfold nl in *. 
        assert (String LF EmptyString <> EmptyString) by discriminate.
        specialize (Hlen H). lia.
      * assert (Hs : sep <> EmptyString)
          by (destruct Hsep as [->|[->| ->]]; discriminate).
        specialize (Hlen sep Hs). lia.
Qed.

Lemma read_csv_lines sep lines :
  Forall (fun l => line_closed q false l = true) lines ->
  sep = nl \/ sep = cr \/ sep = crnl ->
  read_csv d q (String.concat sep lines)
  = read_csv d q (String.concat nl lines).
Proof.
  intros Hall Hsep. rewrite !read_csv_parse.
  etransitivity; [apply (parse_lines Hall (sep := sep)) |
                  symmetry; apply (parse_lines Hall (sep := nl))];
    auto; lia.
Qed.

End LineEndings.

(** C5: for a delimiter and a quote character that are not line-break
    characters, and raw rows that have no line break outside quotes and
    leave no quote open (as the rows that the writer renders are, by
    [written_row_closed]), the streams that separate the rows by line
    feeds, by carriage return and line feed, and by carriage returns are
    read as the same rows.  After a carriage return outside quotes the call
    returns the row, and the reader stands behind the line feed if one
    follows and else directly behind the carriage return: the character
    that was pulled to look ahead is delivered again. *)
Theorem line_endings_read_alike
    (d q : ascii) (lines : list string)
    (self : CustomCsvReader) (e : bool) (rest : string)
    (row : list string) (fc : list ascii) :
  d <> LF -> d <> CR -> q <> LF -> q <> CR ->
  Forall (fun l => line_closed q false l = true) lines ->
  at_text self d q e (String CR rest) ->
  (exists rows,
     read_csv d q (String.concat nl lines) = Some rows
     /\ read_csv d q (String.concat crnl lines) = Some rows
     /\ read_csv d q (String.concat cr lines) = Some rows)
  /\ (exists self',
        loop_body self row fc false
        = Return (Row (row ++ [join_chars fc])) self'
        /\ at_text self' d q e
             (match rest with
              | String c rest' => if Ascii.eqb c LF then rest' else rest
              | EmptyString => EmptyString
              end)).
Proof.
  intros Hd1 Hd2 Hq1 Hq2 Hall Hat. split.
  - destruct (read_csv d q (String.concat nl lines)) as [rows|] eqn:E.
    + exists rows. split; [reflexivity|]. split.
      * rewrite (@read_csv_lines d q Hd1 Hd2 Hq1 Hq2 crnl lines Hall);
          auto.
      * rewrite (@read_csv_lines d q Hd1 Hd2 Hq1 Hq2 cr lines Hall);
          auto.
    + exfalso. rewrite read_csv_parse in E. revert E.
      apply parse_total. lia.
  - destruct (loop_body_carriage_return row fc Hat Hq2 Hd2)
      as (self' & H & Hat').
    exists self'. split; [assumption|].
    unfold after_break in Hat'. change (Ascii.eqb CR CR) with true in Hat'.
    cbn iota in Hat'. destruct rest; assumption.
Qed.

Lemma line_endings_read_alike_witness :
  (exists rows,
     read_csv COMMA DQUOTE
       (String.concat nl
          ["a,b"; dq ++ "x" ++ crnl ++ "y" ++ dq ++ ",z"; EmptyString; "c"])
     = Some rows
     /\ read_csv COMMA DQUOTE
          (String.concat crnl
             ["a,b"; dq ++ "x" ++ crnl ++ "y" ++ dq ++ ",z"; EmptyString; "c"])
        = Some rows
     /\ read_csv COMMA DQUOTE
          (String.concat cr
             ["a,b"; dq ++ "x" ++ crnl ++ "y" ++ dq ++ ",z"; EmptyString; "c"])
        = Some rows)
  /\ (exists self',
        loop_body (new_reader (TextIO.open (cr ++ "k")) COMMA DQUOTE)
                  ["a"] ["b"]%char false
        = Return (Row (["a"] ++ [join_chars ["b"]%char])) self'
        /\ at_text self' COMMA DQUOTE false
             (match "k" with
              | String c rest' => if Ascii.eqb c LF then rest' else "k"
              | EmptyString => EmptyString
              end)).
Proof.
  apply (@line_endings_read_alike COMMA DQUOTE
           ["a,b"; dq ++ "x" ++ crnl ++ "y" ++ dq ++ ",z"; EmptyString; "c"]
           (new_reader (TextIO.open (cr ++ "k")) COMMA DQUOTE) false "k").
  - discriminate.
  - discriminate.
  - discriminate.
  - discriminate.
  - repeat constructor.
  - unfold at_text. cbn. repeat split; reflexivity.
Defined.

(** * Further properties of the reader *)

(** What [scan] leaves unread is an end piece of the text it was given. *)
Lemma scan_suffix d q :
  forall n s row fc inq,
    String.length s <= n ->
    exists consumed, s = consumed ++ snd (fst (scan d q s row fc inq)).
Proof.
  induction n as [|n IH]; intros s row fc inq Hlen.
  - destruct s; [|cbn in Hlen; lia]. exists EmptyString. reflexivity.
  - destruct s as [|c s']; [exists EmptyString; reflexivity|].
    cbn [String.length] in Hlen. cbn [scan].
    assert (Hstep : forall row fc inq,
      exists consumed,
        String c s' = consumed ++ snd (fst (scan d q s' row fc inq))).
    { intros. destruct (IH s' row0 fc0 inq0) as (k & Hk); [lia|].
      exists (String c k). cbn. now rewrite <- Hk. }
    destruct (Ascii.eqb c q).
    { destruct inq; [|apply Hstep].
      destruct s' as [|c2 s'']; [apply Hstep|].
      destruct (Ascii.eqb c2 q); [|apply Hstep].
      cbn [String.length] in Hlen.
      destruct (IH s'' row (fc ++ [q])%list true) as (k & Hk); [lia|].
      exists (String c (String c2 k)). cbn. now rewrite <- Hk. }
    destruct (Ascii.eqb c d && negb inq); [apply Hstep|].
    destruct ((Ascii.eqb c LF || Ascii.eqb c CR) && negb inq);
      [|apply Hstep].
    cbn [fst snd]. destruct (Ascii.eqb c CR).
    + destruct s' as [|c2 s''];
        [exists (String c EmptyString); reflexivity|].
      destruct (Ascii.eqb c2 LF).
      * exists (String c (String c2 EmptyString)). reflexivity.
      * exists (String c EmptyString). reflexivity.
    + exists (String c EmptyString). reflexivity.
Qed.

(** X1: a call of [__next__] takes a front piece off the text that the
    push-back slot and the file still hold, in order and without loss: the
    text before the call is what the call consumed followed by the text
    after it.  The dialect is unchanged; a call that returns a row consumed
    at least one character; and the end-of-stream flag is switched on only
    when nothing is left. *)
Theorem next_consumes_a_prefix self result self' :
  __next__ self = Some (result, self') ->
  delimiter self' = delimiter self
  /\ quotechar self' = quotechar self
  /\ (exists consumed, unread self = consumed ++ unread self')
  /\ (forall r, result = Row r ->
        String.length (unread self') < String.length (unread self))
  /\ (_eof self = false -> _eof self' = true -> unread self' = EmptyString).
Proof.
  intros H. destruct (_eof self) eqn:E.
  - rewrite next_at_eof in H by assumption. injection H as <- <-.
    repeat split; try discriminate.
    exists EmptyString. reflexivity.
  - destruct (@next_scan self (delimiter self) (quotechar self) (unread self))
      as (s1 & H1 & Hat); [unfold at_text; auto|].
    rewrite H1 in H. injection H as <- <-.
    destruct Hat as (Hu & Hd & Hq & He).
    pose proof (@scan_rest (delimiter self) (quotechar self)
                  (String.length (unread self)) (unread self) [] [] false
                  (le_n _)) as Hrest.
    destruct (@scan_suffix (delimiter self) (quotechar self)
                (String.length (unread self)) (unread self) [] [] false
                (le_n _)) as (k & Hk).
    repeat split; try assumption.
    + exists k. now rewrite Hu.
    + intros r Hr. rewrite Hu.
      destruct Hrest as [[_ Hnil]|[_ Hlt]]; [|assumption].
      rewrite Hnil. destruct (unread self); [|cbn; lia].
      cbn in Hr. discriminate.
    + intros _ He'. rewrite Hu.
      destruct Hrest as [[_ Hnil]|[Hf _]]; [assumption|].
      rewrite He in He'. congruence.
Qed.

Lemma next_consumes_a_prefix_witness :
  delimiter (mkReader (TextIO.mk "cd" 3) COMMA DQUOTE (Some "b"%char) false)
  = delimiter (new_reader (TextIO.open ("a" ++ cr ++ "bcd")) COMMA DQUOTE)
  /\ quotechar (mkReader (TextIO.mk "cd" 3) COMMA DQUOTE (Some "b"%char) false)
     = quotechar (new_reader (TextIO.open ("a" ++ cr ++ "bcd")) COMMA DQUOTE)
  /\ (exists consumed,
        unread (new_reader (TextIO.open ("a" ++ cr ++ "bcd")) COMMA DQUOTE)
        = consumed
          ++ unread (mkReader (TextIO.mk "cd" 3) COMMA DQUOTE
                              (Some "b"%char) false))
  /\ (forall r, Row ["a"] = Row r ->
        String.length
          (unread (mkReader (TextIO.mk "cd" 3) COMMA DQUOTE
                            (Some "b"%char) false))
        < String.length
            (unread (new_reader (TextIO.open ("a" ++ cr ++ "bcd"))
                                COMMA DQUOTE)))
  /\ (_eof (new_reader (TextIO.open ("a" ++ cr ++ "bcd")) COMMA DQUOTE)
      = false ->
      _eof (mkReader (TextIO.mk "cd" 3) COMMA DQUOTE (Some "b"%char) false)
      = true ->
      unread (mkReader (TextIO.mk "cd" 3) COMMA DQUOTE (Some "b"%char) false)
      = EmptyString).
Proof.
  apply (@next_consumes_a_prefix
           (new_reader (TextIO.open ("a" ++ cr ++ "bcd")) COMMA DQUOTE)
           (Row ["a"])).
  reflexivity.
Defined.

Lemma drain_ends_at_eof :
  forall fuel self rows self',
    drain fuel self = Some (rows, self') -> _eof self' = true.
Proof.
  induction fuel as [|fuel IH]; intros self rows self' H; [discriminate|].
  cbn [drain] in H.
  destruct (__next__ self) as [[[r|] s1]|] eqn:E; try discriminate.
  - destruct (drain fuel s1) as [[rs s2]|] eqn:E2; [|discriminate].
    injection H as <- <-. eapply IH; eassumption.
  - injection H as <- <-. unfold __next__ in E.
    destruct (_eof self) eqn:Ee.
    + injection E as <-. assumption.
    + eapply next_loop_stop_eof; eassumption.
Qed.

Lemma next_sets_eof_when_empty self result self' :
  _eof self = false ->
  __next__ self = Some (result, self') ->
  _eof self' = true ->
  unread self' = EmptyString.
Proof.
  intros E H He'.
  destruct (@next_scan self (delimiter self) (quotechar self) (unread self))
    as (s1 & H1 & Hat); [unfold at_text; auto|].
  rewrite H1 in H. injection H as <- <-.
  destruct Hat as (Hu & _ & _ & He). rewrite Hu.
  destruct (@scan_rest (delimiter self) (quotechar self)
              (String.length (unread self)) (unread self) [] [] false
              (le_n _)) as [[_ Hnil]|[Hf _]]; [assumption|].
  congruence.
Qed.

Lemma drain_consumes_all :
  forall fuel self rows self',
    drain fuel self = Some (rows, self') ->
    _eof self = false ->
    unread self' = EmptyString.
Proof.
  induction fuel as [|fuel IH]; intros self rows self' H E; [discriminate|].
  cbn [drain] in H.
  destruct (__next__ self) as [[[r|] s1]|] eqn:En; try discriminate.
  - destruct (drain fuel s1) as [[rs s2]|] eqn:E2; [|discriminate].
    injection H as <- <-.
    destruct (_eof s1) eqn:E1; [|eapply IH; eassumption].
    pose proof (@next_sets_eof_when_empty self (Row r) s1 E En E1) as Hu.
    destruct fuel as [|fuel]; [discriminate|].
    cbn [drain] in E2. rewrite next_at_eof in E2 by assumption.
    injection E2 as _ <-. assumption.
  - injection H as _ <-.
    eapply next_sets_eof_when_empty; try eassumption.
    unfold __next__ in En. rewrite E in En.
    eapply next_loop_stop_eof; eassumption.
Qed.

(** X2: iterating a reader to the end, from whatever state it is in,
    comes to an end; it leaves the reader with the end-of-stream flag set
    and, for a reader that had not reached the end before, nothing unread
    in the push-back slot and the file; iterating the same reader again
    yields no row and changes nothing. *)
Theorem iteration_exhausts_the_reader self :
  exists rows self',
    list_reader self = Some (rows, self')
    /\ _eof self' = true
    /\ (_eof self = false -> unread self' = EmptyString)
    /\ list_reader self' = Some ([], self')
    /\ __next__ self' = Some (StopIteration, self').
Proof.
  assert (Hsome : list_reader self <> None).
  { unfold list_reader. intros Hn.
    pose proof (@drain_parse (delimiter self) (quotechar self)
                  (S (S (String.length (unread self)))) self (_eof self)
                  (unread self) (at_text_refl self)) as Hp.
    rewrite Hn in Hp. cbn [option_map] in Hp. symmetry in Hp.
    revert Hp. apply parse_total. lia. }
  destruct (list_reader self) as [[rows self']|] eqn:E; [|congruence].
  exists rows, self'.
  assert (He : _eof self' = true)
    by (unfold list_reader in E; eapply drain_ends_at_eof; eassumption).
  repeat split.
  - assumption.
  - intros E0. unfold list_reader in E.
    eapply drain_consumes_all; eassumption.
  - unfold list_reader. cbn [drain]. now rewrite next_at_eof.
  - now apply next_at_eof.
Qed.

Lemma join_chars_app (a b : list ascii) :
  join_chars (a ++ b) = join_chars a ++ join_chars b.
Proof.
  unfold join_chars. induction a as [|x a IH]; cbn; [reflexivity|].
  now rewrite IH.
Qed.

Lemma contains_join_chars c (l : list ascii) :
  ~ In c l -> contains c (join_chars l) = false.
Proof.
  intros H. destruct (contains c (join_chars l)) eqn:E; [|reflexivity].
  apply contains_In in E. unfold join_chars in E.
  rewrite list_ascii_of_string_of_list_ascii in E. contradiction.
Qed.

Lemma concat_cons_snoc sep x (l : list string) y :
  String.concat sep (x :: l ++ [y]) = x ++ sep ++ String.concat sep (l ++ [y]).
Proof. destruct l; reflexivity. Qed.

(** Reading text without quote characters and line breaks: the fields
    completed so far and the characters of the field that is open. *)
Lemma scan_plain_split d q :
  forall text row fc,
    contains q text = false -> contains LF text = false ->
    contains CR text = false -> ~ In d fc ->
    exists fields last,
      (forall tail,
         scan d q (text ++ tail) row fc false
         = scan d q tail (row ++ fields) last false)
      /\ String.concat (String d EmptyString) (fields ++ [join_chars last])
         = join_chars fc ++ text
      /\ length fields = count_occ ascii_dec (list_ascii_of_string text) d
      /\ Forall (fun f => contains d f = false) (fields ++ [join_chars last])
      /\ (fc <> [] \/ text <> EmptyString ->
          truthy last || truthy fields = true).
Proof.
  induction text as [|c text IH]; intros row fc Hq Hlf Hcr Hfc.
  - exists [], fc. repeat split.
    + intros tail. cbn [append]. now rewrite app_nil_r.
    + cbn. now rewrite append_nil_r.
    + constructor; [now apply contains_join_chars | constructor].
    + intros [H|H]; [|congruence]. destruct fc; [congruence | reflexivity].
  - apply contains_cons_false in Hq, Hlf, Hcr.
    destruct Hq as [Hq Hq'], Hlf as [Hlf Hlf'], Hcr as [Hcr Hcr'].
    destruct (Ascii.eqb c d) eqn:Ed.
    + apply Ascii.eqb_eq in Ed. subst c.
      destruct (IH (row ++ [join_chars fc])%list [] Hq' Hlf' Hcr')
        as (fields & last & Hscan & Hcat & Hlen & Hall & _);
        [intros []|].
      exists (join_chars fc :: fields), last. repeat split.
      * intros tail. cbn [append scan].
        rewrite Hq, Ascii.eqb_refl. cbn [andb negb].
        rewrite Hscan. now rewrite <- app_assoc.
      * cbn [app]. rewrite concat_cons_snoc, Hcat. reflexivity.
      * cbn [length list_ascii_of_string count_occ].
        destruct (ascii_dec d d); [now rewrite Hlen | congruence].
      * cbn [app]. constructor;
          [now apply contains_join_chars | assumption].
      * intros _. cbn [truthy]. apply orb_true_r.
    + destruct (IH row (fc ++ [c])%list Hq' Hlf' Hcr')
        as (fields & last & Hscan & Hcat & Hlen & Hall & Hne).
      { rewrite in_app_iff. intros [H|[H|[]]]; [contradiction|].
        subst c. now rewrite Ascii.eqb_refl in Ed. }
      exists fields, last. repeat split.
      * intros tail. cbn [append scan].
        rewrite Hq, Ed, Hlf, Hcr. cbn [andb orb]. apply Hscan.
      * rewrite Hcat, join_chars_app, append_assoc. reflexivity.
      * cbn [list_ascii_of_string count_occ].
        destruct (ascii_dec c d) as [->|_]; [|assumption].
        now rewrite Ascii.eqb_refl in Ed.
      * assumption.
      * intros _. apply Hne. left. now destruct fc.
Qed.

(** X3: a line without quote characters is split at every delimiter and
    nowhere else, and nothing is trimmed: it reads as one row whose fields,
    joined by the delimiter, are the line again, so one field more than
    the line has delimiters and none with a delimiter in it.  The line
    break at the end may be left out when the line is not empty. *)
Theorem plain_line_splits_at_delimiters (d q : ascii) (text : string) :
  d <> LF -> q <> LF ->
  contains q text = false ->
  contains LF text = false ->
  contains CR text = false ->
  exists fields,
    read_csv d q (text ++ nl) = Some [fields]
    /\ (text <> EmptyString -> read_csv d q text = Some [fields])
    /\ String.concat (String d EmptyString) fields = text
    /\ length fields = S (count_occ ascii_dec (list_ascii_of_string text) d)
    /\ Forall (fun f => contains d f = false) fields.
Proof.
  intros Hd Hq Hnq Hlf Hcr.
  destruct (@scan_plain_split d q text [] [] Hnq Hlf Hcr (fun H => H))
    as (fields & last & Hscan & Hcat & Hlen & Hall & Hne).
  exists (fields ++ [join_chars last])%list. repeat split.
  - rewrite read_csv_parse. cbn [parse]. rewrite Hscan.
    unfold nl. cbn [scan].
    rewrite (eqb_neq_false (not_eq_sym Hq)), (eqb_neq_false (not_eq_sym Hd)).
    reflexivity.
  - intros Htext. rewrite read_csv_parse. cbn [parse].
    pose proof (Hscan EmptyString) as Hend.
    rewrite append_nil_r in Hend. rewrite Hend.
    cbn [scan app]. rewrite Hne by (right; assumption). reflexivity.
  - exact Hcat.
  - rewrite length_app, Hlen. cbn. lia.
  - exact Hall.
Qed.

Lemma plain_line_splits_at_delimiters_witness :
  exists fields,
    read_csv COMMA DQUOTE (" a,,b c ," ++ nl) = Some [fields]
    /\ (" a,,b c ," <> EmptyString ->
        read_csv COMMA DQUOTE " a,,b c ," = Some [fields])
    /\ String.concat (String COMMA EmptyString) fields = " a,,b c ,"
    /\ length fields
       = S (count_occ ascii_dec (list_ascii_of_string " a,,b c ,") COMMA)
    /\ Forall (fun f => contains COMMA f = false) fields.
Proof.
  apply (@plain_line_splits_at_delimiters COMMA DQUOTE " a,,b c ,").
  - discriminate.
  - discriminate.
  - reflexivity.
  - reflexivity.
  - reflexivity.
Defined.

Lemma replace_without c new text :
  contains c text = false -> replace c new text = text.
Proof.
  induction text as [|x text IH]; [reflexivity|].
  intros H. apply contains_cons_false in H as [Hx H].
  cbn. rewrite Hx. now rewrite IH.
Qed.

Lemma must_quote_false d q lt text :
  Writer.must_quote (Writer.mk d q lt) text = false ->
  contains d text = false /\ contains q text = false
  /\ contains LF text = false /\ contains CR text = false.
Proof.
  unfold Writer.must_quote. cbn [Writer.delimiter Writer.quotechar].
  intros E.
  apply orb_false_elim in E as [E Hcr].
  apply orb_false_elim in E as [E Hlf].
  apply orb_false_elim in E as [Hd Hq]. auto.
Qed.

(** X5: a quoted section may stand anywhere in a field.  Where [pre] and
    [post] are texts that the writer would leave unquoted and [body] holds
    no quote character, the line of [pre], a quote, [body], a quote and
    [post] reads as the one field [pre ++ body ++ post]: the two quotes are
    dropped, and the delimiters and line breaks of [body] are kept. *)
Theorem quoted_section_joins_its_field (d q : ascii) (pre body post : string) :
  d <> LF -> d <> CR -> q <> LF -> q <> CR ->
  Writer.must_quote (Writer.mk d q nl) pre = false ->
  Writer.must_quote (Writer.mk d q nl) post = false ->
  contains q body = false ->
  read_csv d q (pre ++ String q (body ++ String q (post ++ nl)))
  = Some [[pre ++ body ++ post]].
Proof.
  intros Hd1 Hd2 Hq1 Hq2 Hpre Hpost Hbody.
  apply must_quote_false in Hpre as (Pd & Pq & Plf & Pcr).
  apply must_quote_false in Hpost as (Sd & Sq & Slf & Scr).
  rewrite read_csv_parse. cbn [parse].
  rewrite scan_plain by assumption.
  cbn [scan app]. rewrite Ascii.eqb_refl.
  rewrite <- (@replace_without q (String q (String q EmptyString)) body
                Hbody) at 1.
  rewrite scan_quoted.
  - rewrite scan_plain by assumption.
    unfold nl.
    rewrite (scan_break Hd1 Hd2 Hq1 Hq2) by auto.
    cbn [app after_break].
    rewrite !join_chars_app, !join_chars_of_string, append_assoc.
    reflexivity.
  - apply not_ahead_app; [now apply not_ahead_contains|].
    change (Ascii.eqb LF q = false). apply eqb_neq_false. congruence.
Qed.

Lemma quoted_section_joins_its_field_witness :
  read_csv COMMA DQUOTE
    ("ab" ++ String DQUOTE (("c,d" ++ nl ++ "e")
                            ++ String DQUOTE (" f" ++ nl)))
  = Some [["ab" ++ ("c,d" ++ nl ++ "e") ++ " f"]].
Proof.
  apply (@quoted_section_joins_its_field COMMA DQUOTE
           "ab" ("c,d" ++ nl ++ "e") " f").
  - discriminate.
  - discriminate.
  - discriminate.
  - discriminate.
  - reflexivity.
  - reflexivity.
  - reflexivity.
Defined.

(** [scan] signals end-of-sequence only at the end of the text. *)
Lemma scan_stop_at_eof d q s row fc inq :
  fst (fst (scan d q s row fc inq)) = StopIteration ->
  snd (scan d q s row fc inq) = true.
Proof.
  intros Hstop.
  destruct (@next_loop_scan d q false (S (String.length s))
              (new_reader (TextIO.open s) d q) row fc inq s)
    as (self' & Hn & Hat).
  - unfold at_text, new_reader, unread. cbn. auto.
  - lia.
  - rewrite Hstop in Hn. apply next_loop_stop_eof in Hn.
    destruct Hat as (_ & _ & _ & He). rewrite orb_false_r in He. congruence.
Qed.

Lemma parse_fuel_agree d q fuel fuel' s e rows :
  parse fuel d q s e = Some rows ->
  String.length s + 2 <= fuel' ->
  parse fuel' d q s e = Some rows.
Proof.
  intros H Hlen.
  destruct (parse fuel' d q s e) as [rows'|] eqn:E.
  - destruct (Nat.le_ge_cases fuel fuel') as [Hle|Hle].
    + rewrite (@parse_more_fuel d q _ _ _ _ _ H Hle) in E. congruence.
    + rewrite (@parse_more_fuel d q _ _ _ _ _ E Hle) in H. congruence.
  - exfalso. revert E. now apply parse_total.
Qed.

Lemma append_cancel_r (a b c : string) : a ++ c = b ++ c -> a = b.
Proof.
  intros H.
  assert (Hlen : String.length a = String.length b).
  { apply (f_equal String.length) in H. rewrite !length_append in H. lia. }
  revert b H Hlen. induction a as [|x a IH]; intros [|y b] H Hlen;
    cbn in Hlen; try discriminate; [reflexivity|].
  cbn in H. injection H as -> H. f_equal. apply IH; [assumption | lia].
Qed.

Section TerminatedRows.

Variables d q : ascii.
Hypothesis d_not_LF : d <> LF.
Hypothesis d_not_CR : d <> CR.
Hypothesis q_not_LF : q <> LF.
Hypothesis q_not_CR : q <> CR.

Variable sep : string.
Hypothesis sep_break : sep = nl \/ sep = cr \/ sep = crnl.

Local Abbreviation closed := (fun l => line_closed q false l = true).
Local Abbreviation terminated :=
  (fun lines => String.concat EmptyString (map (fun l => l ++ sep) lines)).

(** A raw row in front of a line break reads as a row, and the reader
    stops behind the break. *)
Lemma line_reads_as_row line :
  line_closed q false line = true ->
  exists r,
    forall c rest,
      c = LF \/ c = CR ->
      scan d q (line ++ String c rest) [] [] false
      = (Row r, after_break c rest, false).
Proof.
  intros Hcl.
  pose proof (@scan_line d q d_not_LF d_not_CR q_not_LF q_not_CR
                (String.length line) line [] [] false) as Hline.
  destruct (fst (fst (scan d q (line ++ nl) [] [] false))) as [r|] eqn:E.
  - exists r. intros c rest Hc. now apply Hline.
  - exfalso. apply scan_stop_at_eof in E.
    unfold nl in E.
    rewrite (Hline LF EmptyString (le_n _) Hcl (or_introl eq_refl)) in E.
    discriminate.
Qed.

Lemma scan_terminated line r rest :
  (forall c rest,
     c = LF \/ c = CR ->
     scan d q (line ++ String c rest) [] [] false
     = (Row r, after_break c rest, false)) ->
  (sep = cr -> not_ahead LF rest) ->
  scan d q (line ++ sep ++ rest) [] [] false = (Row r, rest, false).
Proof.
  intros Hr Hrest. destruct sep_break as [H|[H|H]]; rewrite H in *.
  - cbn [nl append]. rewrite Hr by auto. reflexivity.
  - cbn [cr append]. rewrite Hr by auto.
    now rewrite after_break_not_LF by auto.
  - cbn [crnl append]. rewrite Hr by auto. reflexivity.
Qed.

Lemma terminated_not_LF lines b :
  Forall closed lines ->
  not_ahead LF b ->
  sep <> nl ->
  not_ahead LF (terminated lines ++ b).
Proof.
  intros Hall Hb Hsep. destruct Hall as [|l lines Hl _]; [assumption|].
  cbn [map]. rewrite concat_empty_cons, !append_assoc.
  pose proof (closed_not_LF q_not_LF l Hl) as Hl'.
  destruct l as [|c l]; [|exact Hl'].
  cbn [append].
  destruct sep_break as [H|[H|H]]; [congruence | |]; rewrite H;
    reflexivity.
Qed.

Lemma parse_terminated :
  forall lines,
    Forall closed lines ->
    exists rows,
      Forall2 (fun l r =>
                 forall c rest,
                   c = LF \/ c = CR ->
                   scan d q (l ++ String c rest) [] [] false
                   = (Row r, after_break c rest, false)) lines rows
      /\ forall b fuel rb,
           (sep = cr -> not_ahead LF b) ->
           parse fuel d q b false = Some rb ->
           parse (length lines + fuel) d q (terminated lines ++ b) false
           = Some (rows ++ rb)%list.
Proof.
  induction lines as [|l lines IH]; intros Hall.
  - exists []. split; [constructor|]. intros b fuel rb _ H. exact H.
  - inversion Hall as [|? ? Hl Hrest]; subst.
    destruct (IH Hrest) as (rows & Hrows & Hparse).
    destruct (@line_reads_as_row l Hl) as (r & Hr).
    exists (r :: rows). split; [now constructor|].
    intros b fuel rb Hb Hrb.
    cbn [map length Nat.add]. rewrite concat_empty_cons, !append_assoc.
    cbn [parse]. rewrite (@scan_terminated l r _ Hr).
    + rewrite (Hparse b fuel rb Hb Hrb). reflexivity.
    + intros Hcr. apply terminated_not_LF; [assumption | auto |].
      rewrite Hcr. discriminate.
Qed.

End TerminatedRows.

(** X4: raw rows that each end in a line break are read one by one.  For
    a delimiter and a quote character that are not line-break characters,
    and raw rows without a line break outside quotes and without an open
    quote, the text of the rows, each followed by the same line break,
    reads as one row for each raw row, the row that the raw row reads as
    on its own, an empty line too; and whatever text follows reads as it
    does on its own: the read of the whole is the rows of the first part
    followed by the rows of the rest.  After carriage returns the rest
    must not start with a line feed, which would be taken for the second
    half of the break. *)
Theorem terminated_rows_read_one_by_one
    (d q : ascii) (sep : string) (lines : list string) (b : string) :
  d <> LF -> d <> CR -> q <> LF -> q <> CR ->
  sep = nl \/ sep = cr \/ sep = crnl ->
  Forall (fun l => line_closed q false l = true) lines ->
  (sep = cr -> forall b', b <> String LF b') ->
  exists rows rest,
    Forall2 (fun l r => read_csv d q (l ++ nl) = Some [r]) lines rows
    /\ read_csv d q (String.concat EmptyString
                       (map (fun l => l ++ sep) lines)) = Some rows
    /\ read_csv d q b = Some rest
    /\ read_csv d q (String.concat EmptyString
                       (map (fun l => l ++ sep) lines) ++ b)
       = Some (rows ++ rest)%list.
Proof.
  intros Hd1 Hd2 Hq1 Hq2 Hsep Hall Hb.
  destruct (@parse_terminated d q Hd1 Hd2 Hq1 Hq2 sep Hsep lines Hall)
    as (rows & Hrows & Hparse).
  destruct (read_csv d q b) as [rest|] eqn:Eb;
    [|exfalso; revert Eb; apply read_csv_total].
  exists rows, rest. repeat split.
  - clear -Hrows. induction Hrows as [|l r lines rows Hr _ IH];
      constructor; [|assumption].
    rewrite read_csv_parse. cbn [parse]. unfold nl.
    rewrite Hr by auto. reflexivity.
  - rewrite read_csv_parse.
    apply parse_fuel_agree with (fuel := length lines + 1); [|lia].
    rewrite <- (append_nil_r (String.concat _ _)).
    rewrite <- (app_nil_r rows).
    apply Hparse; [intros _; exact I | reflexivity].
  - rewrite read_csv_parse in *.
    eapply parse_fuel_agree; [|lia].
    apply Hparse; [|eassumption].
    intros Hcr. specialize (Hb Hcr).
    destruct b as [|c b']; [exact I|]. cbn.
    apply Ascii.eqb_neq. intros ->. now apply (Hb b').
Qed.

Lemma terminated_rows_read_one_by_one_witness :
  exists rows rest,
    Forall2 (fun l r => read_csv COMMA DQUOTE (l ++ nl) = Some [r])
            ["a,b"; EmptyString; dq ++ "x" ++ cr ++ "y" ++ dq] rows
    /\ read_csv COMMA DQUOTE
         (String.concat EmptyString
            (map (fun l => l ++ cr)
                 ["a,b"; EmptyString; dq ++ "x" ++ cr ++ "y" ++ dq]))
       = Some rows
    /\ read_csv COMMA DQUOTE ("c" ++ nl ++ "d") = Some rest
    /\ read_csv COMMA DQUOTE
         (String.concat EmptyString
            (map (fun l => l ++ cr)
                 ["a,b"; EmptyString; dq ++ "x" ++ cr ++ "y" ++ dq])
          ++ ("c" ++ nl ++ "d"))
       = Some (rows ++ rest)%list.
Proof.
  apply (@terminated_rows_read_one_by_one COMMA DQUOTE cr
           ["a,b"; EmptyString; dq ++ "x" ++ cr ++ "y" ++ dq]
           ("c" ++ nl ++ "d")).
  - discriminate.
  - discriminate.
  - discriminate.
  - discriminate.
  - right. left. reflexivity.
  - repeat constructor.
  - intros _ b'. discriminate.
Defined.

(** * Further properties of the writer *)

(** X6: a row as the writer renders it, its fields quoted where needed
    and joined by the delimiter, has no line break outside quotes and
    leaves no quote open, when the delimiter is neither the quote
    character nor a line-break character: it is one raw row for the
    reader, whatever line breaks its fields hold. *)
Theorem written_row_is_one_raw_row
    (w : Writer.CustomCsvWriter) (row : list value) :
  Writer.delimiter w <> Writer.quotechar w ->
  Writer.delimiter w <> LF -> Writer.delimiter w <> CR ->
  line_closed (Writer.quotechar w) false
    (String.concat (String (Writer.delimiter w) EmptyString)
                   (map (Writer._quote_field w) row)) = true.
Proof.
  destruct w as [d q lt]. cbn [Writer.delimiter Writer.quotechar].
  intros Hdq Hd1 Hd2. now apply written_row_closed.
Qed.

Lemma written_row_is_one_raw_row_witness :
  line_closed (Writer.quotechar Writer.default) false
    (String.concat (String (Writer.delimiter Writer.default) EmptyString)
       (map (Writer._quote_field Writer.default)
            [PyStr ("a" ++ crnl ++ "b"); PyNone; PyStr (dq ++ ",")]))
  = true.
Proof.
  apply (@written_row_is_one_raw_row Writer.default).
  - discriminate.
  - discriminate.
  - discriminate.
Defined.

(** X7: what the writer writes for a field determines the field's text,
    in every dialect: two values with different texts are never written
    alike. *)
Theorem written_field_determines_text
    (w : Writer.CustomCsvWriter) (a b : value) :
  Writer._quote_field w a = Writer._quote_field w b ->
  Writer.text_of a = Writer.text_of b.
Proof.
  destruct w as [d q lt]. intros H.
  pose proof (@scan_field d q lt a EmptyString ["x"] [] I) as Ha.
  pose proof (@scan_field d q lt b EmptyString ["x"] [] I) as Hb.
  rewrite H, Hb in Ha. cbn [scan app] in Ha.
  assert (Ht : forall l : list ascii, truthy l || true = true)
    by (intros; apply orb_true_r).
  rewrite !Ht in Ha. injection Ha as Ha.
  unfold join_chars in Ha.
  now rewrite !string_of_list_ascii_of_string in Ha.
Qed.

Lemma written_field_determines_text_witness :
  Writer.text_of PyNone = Writer.text_of (PyStr EmptyString).
Proof.
  apply (@written_field_determines_text Writer.default).
  reflexivity.
Defined.

(** X8: the line that [writerow] writes determines the texts of the row's
    fields, for rows with at least one field, when the delimiter and the
    quote character are distinct and neither is a line-break character:
    two such rows with different texts are never written as the same
    line. *)
Theorem written_line_determines_row
    (w : Writer.CustomCsvWriter) (r1 r2 : list value) :
  Writer.delimiter w <> Writer.quotechar w ->
  Writer.delimiter w <> LF -> Writer.delimiter w <> CR ->
  Writer.quotechar w <> LF -> Writer.quotechar w <> CR ->
  r1 <> [] -> r2 <> [] ->
  Writer.line_of w r1 = Writer.line_of w r2 ->
  map Writer.text_of r1 = map Writer.text_of r2.
Proof.
  destruct w as [d q lt]. unfold Writer.line_of.
  cbn [Writer.delimiter Writer.quotechar Writer.line_terminator].
  intros Hdq Hd1 Hd2 Hq1 Hq2 H1 H2 H.
  apply append_cancel_r in H.
  destruct r1 as [|v1 r1]; [congruence|].
  destruct r2 as [|v2 r2]; [congruence|].
  pose proof (@scan_fields d q Hdq Hd1 Hd2 Hq1 Hq2 lt r1 v1 [] LF
                EmptyString (or_introl eq_refl)) as E1.
  pose proof (@scan_fields d q Hdq Hd1 Hd2 Hq1 Hq2 lt r2 v2 [] LF
                EmptyString (or_introl eq_refl)) as E2.
  rewrite H, E2 in E1. cbn [app] in E1. congruence.
Qed.

Lemma written_line_determines_row_witness :
  map Writer.text_of [PyNone; PyStr "a,b"]
  = map Writer.text_of [PyStr EmptyString; PyStr "a,b"].
Proof.
  apply (@written_line_determines_row Writer.default).
  - discriminate.
  - discriminate.
  - discriminate.
  - discriminate.
  - discriminate.
  - discriminate.
  - discriminate.
  - reflexivity.
Defined.

(** X9: reading a text, writing the rows that were read and reading the
    result gives the same rows again, whatever the text was: every row
    that was read has a field, so the rows round-trip.  The delimiter and
    the quote character are distinct and not line-break characters, and
    the line terminator is a line feed, a carriage return or both. *)
Theorem rewritten_rows_read_the_same
    (w : Writer.CustomCsvWriter) (text : string) (rows : list (list string)) :
  Writer.delimiter w <> Writer.quotechar w ->
  Writer.delimiter w <> LF -> Writer.delimiter w <> CR ->
  Writer.quotechar w <> LF -> Writer.quotechar w <> CR ->
  Writer.line_terminator w = nl \/ Writer.line_terminator w = cr
  \/ Writer.line_terminator w = crnl ->
  read_back w text = Some rows ->
  read_back w (written w (map (map PyStr) rows)) = Some rows.
Proof.
  destruct w as [d q lt].
  cbn [Writer.delimiter Writer.quotechar Writer.line_terminator].
  intros Hdq Hd1 Hd2 Hq1 Hq2 Hlt Hread.
  assert (Hne : Forall (fun r : list string => r <> []) rows).
  { unfold read_back, read_csv, list_reader in Hread.
    destruct (drain _ _) as [[rs s]|] eqn:E; [|discriminate].
    injection Hread as <-. eapply drain_rows_nonempty; eassumption. }
  rewrite read_back_written; try assumption.
  - now rewrite map_map_text_of_PyStr.
  - clear -Hne. induction Hne as [|r rows Hr _ IH]; cbn;
      constructor; [|assumption].
    destruct r; [congruence | discriminate].
Qed.

Lemma rewritten_rows_read_the_same_witness :
  read_back Writer.default
    (written Writer.default
       (map (map PyStr) [["ab,c"; "d"]; [EmptyString]; ["e"]]))
  = Some [["ab,c"; "d"]; [EmptyString]; ["e"]].
Proof.
  apply (@rewritten_rows_read_the_same Writer.default
           ("a" ++ dq ++ "b,c" ++ dq ++ ",d" ++ cr ++ crnl ++ "e" ++ dq
            ++ dq)).
  - discriminate.
  - discriminate.
  - discriminate.
  - discriminate.
  - discriminate.
  - left. reflexivity.
  - reflexivity.
Defined.

(** * Further properties of the compatibility subclass *)

Section NoWriteMethod.

Variable w : Writer.CustomCsvWriter.

Local Abbreviation base := (Inherit.instance (Inherit._Original w)).
Local Abbreviation sub :=
  (Inherit.instance (Inherit.CustomCsvWriter (Inherit._Original w))).

Lemma sub_has_aliases n :
  Inherit.hasattr (Inherit.write_row (sub n)) = true
  /\ Inherit.hasattr (Inherit.write_rows (sub n)) = true.
Proof. destruct n; split; reflexivity. Qed.

(** Without a [write] method the subclass's [writerow] and the inherited
    [write_row] call each other at every depth. *)
Lemma sub_calls_never_end n row :
  Inherit.call (Inherit.writerow (sub n)) row Inherit.NoWrite
  = (Dispatch.Unwound, Inherit.NoWrite)
  /\ Inherit.call (Inherit.write_row (sub n)) row Inherit.NoWrite
     = (Dispatch.Unwound, Inherit.NoWrite).
Proof.
  induction n as [|n [IHw IHr]]; [split; reflexivity|]. split.
  - cbn [Inherit.instance]. unfold Inherit.CustomCsvWriter at 1.
    cbn [Inherit.writerow Inherit.call Inherit._Original Inherit.file_write].
    rewrite (proj1 (sub_has_aliases n)). exact IHr.
  - cbn [Inherit.instance]. unfold Inherit.CustomCsvWriter at 1.
    cbn [Inherit.write_row Inherit.call Inherit._Original]. exact IHw.
Qed.

Lemma for_each_text_file (body : list value -> Inherit.action)
    (f : list value -> Sink.t -> Sink.t) :
  (forall r out,
     body r (Inherit.TextFile out)
     = (Dispatch.Normal, Inherit.TextFile (f r out))) ->
  forall rows out,
    Inherit.for_each body rows (Inherit.TextFile out)
    = (Dispatch.Normal,
       Inherit.TextFile (fold_left (fun out r => f r out) rows out)).
Proof.
  intros Hbody. induction rows as [|r rows IH]; intros out; cbn.
  - reflexivity.
  - rewrite Hbody. apply IH.
Qed.

End NoWriteMethod.

(** C10, as the code has it: when the file is a writable text file, on
    an object of the subclass of [custom_csv_writer.py] [writerow] and
    [writerows] end normally and make the same appends as on an object of
    the base class; there the parent's methods, called on the subclass
    object, do not raise [AttributeError], so the fallback branches are not
    entered.  On an object of the base class [write_row] and [write_rows]
    do what [writerow] and [writerows] do, on any file object. *)
Theorem subclass_writes_as_base_on_text_file
    (w : Writer.CustomCsvWriter) (row : list value)
    (rows : list (list value)) (out : Sink.t) (n : nat) :
  let base := Inherit.instance (Inherit._Original w) (3 + n) in
  let sub :=
    Inherit.instance (Inherit.CustomCsvWriter (Inherit._Original w)) in
  Inherit.call (Inherit.writerow base) row (Inherit.TextFile out)
  = (Dispatch.Normal, Inherit.TextFile (Writer.writerow w row out))
  /\ Inherit.call (Inherit.writerows base) rows (Inherit.TextFile out)
     = (Dispatch.Normal, Inherit.TextFile (Writer.writerows w rows out))
  /\ Inherit.call (Inherit.writerow (sub (3 + n))) row (Inherit.TextFile out)
     = Inherit.call (Inherit.writerow base) row (Inherit.TextFile out)
  /\ Inherit.call (Inherit.writerows (sub (3 + n))) rows
       (Inherit.TextFile out)
     = Inherit.call (Inherit.writerows base) rows (Inherit.TextFile out)
  /\ Inherit.call (Inherit.writerow (Inherit._Original w (sub (2 + n)))) row
       (Inherit.TextFile out)
     = (Dispatch.Normal, Inherit.TextFile (Writer.writerow w row out))
  /\ Inherit.call (Inherit.writerows (Inherit._Original w (sub (2 + n))))
       rows (Inherit.TextFile out)
     = (Dispatch.Normal, Inherit.TextFile (Writer.writerows w rows out))
  /\ (forall f : Inherit.file_obj,
        Inherit.call (Inherit.write_row base) row f
        = Inherit.call (Inherit.writerow base) row f)
  /\ (forall f : Inherit.file_obj,
        Inherit.call (Inherit.write_rows base) rows f
        = Inherit.call (Inherit.writerows base) rows f)
  /\ Writer.write_row w row out = Writer.writerow w row out
  /\ Writer.write_rows w rows out = Writer.writerows w rows out.
Proof.
  intros base sub.
  assert (Hb : Inherit.call (Inherit.writerows base) rows
                 (Inherit.TextFile out)
               = (Dispatch.Normal,
                  Inherit.TextFile (Writer.writerows w rows out))).
  { unfold base. cbn [Nat.add Inherit.instance].
    unfold Inherit._Original at 1. cbn [Inherit.writerows Inherit.call].
    apply (@for_each_text_file _ (Writer.writerow w)).
    intros r o. reflexivity. }
  assert (Hp : Inherit.call
                 (Inherit.writerows (Inherit._Original w (sub (2 + n))))
                 rows (Inherit.TextFile out)
               = (Dispatch.Normal,
                  Inherit.TextFile (Writer.writerows w rows out))).
  { unfold Inherit._Original at 1. cbn [Inherit.writerows Inherit.call].
    apply (@for_each_text_file _ (Writer.writerow w)).
    intros r o. reflexivity. }
  repeat match goal with |- _ /\ _ => split end.
  - reflexivity.
  - exact Hb.
  - reflexivity.
  - rewrite Hb. unfold sub. cbn [Nat.add Inherit.instance].
    unfold Inherit.CustomCsvWriter at 1.
    cbn [Inherit.writerows Inherit.call].
    unfold Inherit._Original at 1. cbn [Inherit.writerows].
    cbn [Inherit.call].
    rewrite (@for_each_text_file _ (Writer.writerow w)); [reflexivity|].
    intros r o. reflexivity.
  - reflexivity.
  - exact Hp.
  - intros f. reflexivity.
  - intros f. reflexivity.
  - reflexivity.
  - reflexivity.
Qed.

(** C10 as stated fails: when the object passed as the file has no
    [write] method, [writerow] of the base class raises [AttributeError];
    on the subclass the parent's [writerow] raises it as well, the object
    has a [write_row], so the fallback branch is entered, and the call
    does not end as the base class's does, at any depth. *)
Lemma subclass_enters_fallback_without_write :
  Inherit.call
    (Inherit.writerow (Inherit.instance (Inherit._Original Writer.default) 3))
    [PyStr "a"] Inherit.NoWrite
  = (Dispatch.AttributeError, Inherit.NoWrite)
  /\ (forall self,
        Inherit.call
          (Inherit.writerow (Inherit._Original Writer.default self))
          [PyStr "a"] Inherit.NoWrite
        = (Dispatch.AttributeError, Inherit.NoWrite))
  /\ (forall n,
        Inherit.hasattr
          (Inherit.write_row
             (Inherit.instance
                (Inherit.CustomCsvWriter (Inherit._Original Writer.default))
                n)) = true)
  /\ (forall n,
        Inherit.call
          (Inherit.writerow
             (Inherit.instance
                (Inherit.CustomCsvWriter (Inherit._Original Writer.default))
                n))
          [PyStr "a"] Inherit.NoWrite
        = (Dispatch.Unwound, Inherit.NoWrite)).
Proof.
  repeat match goal with |- _ /\ _ => split end.
  - reflexivity.
  - intros self. reflexivity.
  - intros n. apply sub_has_aliases.
  - intros n. apply sub_calls_never_end.
Qed.

(** X10: when the object passed as the file has no [write] method, the
    base writer's [writerow] raises [AttributeError], and so does its
    [writerows] at the first row.  The subclass of [custom_csv_writer.py]
    catches that error and calls [write_row], which calls [writerow] on
    the same object again: at no depth does the call return or raise
    [AttributeError], the calls nest without end, for [writerows] of a
    non-empty list too.  On a text file both methods of the subclass end
    normally with the appends of the base class. *)
Theorem missing_write_method_recurses
    (w : Writer.CustomCsvWriter) (row : list value)
    (rows : list (list value)) (n : nat) (out : Sink.t) :
  let base := Inherit.instance (Inherit._Original w) in
  let sub :=
    Inherit.instance (Inherit.CustomCsvWriter (Inherit._Original w)) in
  Inherit.call (Inherit.writerow (base (1 + n))) row Inherit.NoWrite
  = (Dispatch.AttributeError, Inherit.NoWrite)
  /\ Inherit.call (Inherit.writerows (base (2 + n))) (row :: rows)
       Inherit.NoWrite
     = (Dispatch.AttributeError, Inherit.NoWrite)
  /\ Inherit.call (Inherit.writerow (sub n)) row Inherit.NoWrite
     = (Dispatch.Unwound, Inherit.NoWrite)
  /\ Inherit.call (Inherit.writerows (sub n)) (row :: rows) Inherit.NoWrite
     = (Dispatch.Unwound, Inherit.NoWrite)
  /\ Inherit.call (Inherit.writerow (sub (1 + n))) row (Inherit.TextFile out)
     = (Dispatch.Normal, Inherit.TextFile (Writer.writerow w row out))
  /\ Inherit.call (Inherit.writerows (sub (2 + n))) rows
       (Inherit.TextFile out)
     = (Dispatch.Normal, Inherit.TextFile (Writer.writerows w rows out)).
Proof.
  intros base sub.
  repeat match goal with |- _ /\ _ => split end.
  - reflexivity.
  - reflexivity.
  - apply sub_calls_never_end.
  - destruct n as [|n]; [reflexivity|].
    unfold sub. cbn [Inherit.instance].
    unfold Inherit.CustomCsvWriter at 1.
    cbn [Inherit.writerows Inherit.call Inherit._Original Inherit.for_each].
    rewrite (proj1 (sub_calls_never_end w n row)). reflexivity.
  - reflexivity.
  - unfold sub. cbn [Nat.add Inherit.instance].
    unfold Inherit.CustomCsvWriter at 1.
    cbn [Inherit.writerows Inherit.call].
    unfold Inherit._Original at 1. cbn [Inherit.writerows].
    cbn [Inherit.call].
    rewrite (@for_each_text_file _ (Writer.writerow w)); [reflexivity|].
    intros r o. reflexivity.
Qed.

(** * The reader when the delimiter is the quote character *)

Lemma scan_same_char q :
  forall n s row fc inq,
    String.length s <= n ->
    match fst (fst (scan q q s row fc inq)) with
    | Row r => exists f, r = (row ++ [f])%list
    | StopIteration => True
    end.
Proof.
  induction n as [|n IH]; intros s row fc inq Hlen.
  - destruct s; [|cbn in Hlen; lia]. cbn.
    destruct (truthy fc || truthy row); [eauto | exact I].
  - destruct s as [|c s'].
    { cbn. destruct (truthy fc || truthy row); [eauto | exact I]. }
    cbn [String.length] in Hlen. cbn [scan].
    destruct (Ascii.eqb c q).
    + destruct inq; [|apply IH; lia].
      destruct s' as [|c2 s'']; [apply IH; cbn; lia|].
      cbn [String.length] in Hlen.
      destruct (Ascii.eqb c2 q); apply IH; cbn; lia.
    + cbn [andb].
      destruct ((Ascii.eqb c LF || Ascii.eqb c CR) && negb inq);
        [cbn; eauto | apply IH; lia].
Qed.

Lemma parse_same_char q :
  forall fuel s e rows,
    parse fuel q q s e = Some rows ->
    Forall (fun r => exists f : string, r = [f]) rows.
Proof.
  induction fuel as [|fuel IH]; intros s e rows H; [discriminate|].
  cbn [parse] in H. destruct e; [injection H as <-; constructor|].
  pose proof (@scan_same_char q (String.length s) s [] [] false (le_n _))
    as Hr.
  destruct (scan q q s [] [] false) as [[[r|] rest] e'];
    [|injection H as <-; constructor].
  cbn [fst] in Hr.
  destruct (parse fuel q q rest e') as [rs|] eqn:E; [|discriminate].
  injection H as <-. constructor; [exact Hr | eapply IH; eassumption].
Qed.

(** X11: when the reader is given the same character as delimiter and as
    quote character, that character is always taken for a quote and never
    separates fields: every row that is read has exactly one field. *)
Theorem equal_delimiter_and_quote_never_split
    (q : ascii) (text : string) (rows : list (list string)) :
  read_csv q q text = Some rows ->
  Forall (fun r => exists f : string, r = [f]) rows.
Proof.
  rewrite read_csv_parse. apply parse_same_char.
Qed.

Lemma equal_delimiter_and_quote_never_split_witness :
  Forall (fun r => exists f : string, r = [f]) [["a,b"]; ["cd"]].
Proof.
  apply (@equal_delimiter_and_quote_never_split ";"%char
           ("a,b" ++ nl ++ "c;d;" ++ nl)).
  reflexivity.
Defined.
